(** * aiowamp: error representation and error translation

    A shallow embedding of [aiowamp/errors.py] and of the payload
    normalisation of [aiowamp/client/event.py].

    Python objects with identity (exceptions, messages) live in a heap
    indexed by locations; plain data (ints, strings, lists, dicts ...) is
    modelled by value, and so is an exception while it is in flight.  The
    module globals [ERR_RESP_MAP] and [EXC_URI_MAP] are passed to the
    functions that read or write them.  Code that can raise returns an
    [Outcome]. *)

From stdpp Require Import gmap strings list fin_maps pretty.

Open Scope Z_scope.
Open Scope string_scope.

(** ** Python values *)

(** Locations of heap objects: the identity of a Python object. *)
Abbreviation loc := positive.

(** The text of an [aiowamp.URI].  [URI] subclasses [str]: it hashes and
    compares like its text. *)
Abbreviation URI := string.

(** The values the module handles: WAMP payload data ([int], [str], [bool],
    lists and string-keyed dicts), [None], tuples (the [*args] of a call and
    [BaseException.args]) and references to heap objects.  A dict is the list
    of its items in insertion order. *)
#[warnings="-register-all"]
Inductive Value : Type :=
| VNone
| VBool (b : bool)
| VInt (z : Z)
| VStr (s : string)
| VList (l : list Value)
| VTuple (l : list Value)
| VDict (d : list (string * Value))
| VObj (l : loc).

(** Python's truth value testing, [bool(v)].  Instances of the classes of
    this module define neither [__bool__] nor [__len__]: they are true. *)
Definition truthy (v : Value) : bool :=
  match v with
  | VNone => false
  | VBool b => b
  | VInt z => negb (z =? 0)%Z
  | VStr s => negb (String.eqb s "")
  | VList l | VTuple l => negb (Nat.eqb (length l) 0)
  | VDict d => negb (Nat.eqb (length d) 0)
  | VObj _ => true
  end.

(** [a or b] *)
Definition py_or (a b : Value) : Value := if truthy a then a else b.

Definition is_tuple (v : Value) : bool :=
  match v with VTuple _ => true | _ => false end.

Definition is_dict (v : Value) : bool :=
  match v with VDict _ => true | _ => false end.

(** ** Rendering: [str] and [repr]

    How a [str] is quoted by [repr] and how a heap object renders itself are
    decided outside this module (the interpreter, the object's class); they
    are the methods of an interface. *)
Class Rendering := {
  repr_of_str : string → string;
  str_of_obj : loc → string;
  repr_of_obj : loc → string
}.

(** [sep.join(l)] *)
Definition join (sep : string) (l : list string) : string := String.concat sep l.

Section rendering.
Context `{Rendering}.

Fixpoint py_repr (v : Value) : string :=
  match v with
  | VNone => "None"
  | VBool true => "True"
  | VBool false => "False"
  | VInt z => pretty z
  | VStr s => repr_of_str s
  | VList l => "[" +:+ join ", " (map py_repr l) +:+ "]"
  | VTuple [x] => "(" +:+ py_repr x +:+ ",)"
  | VTuple l => "(" +:+ join ", " (map py_repr l) +:+ ")"
  | VDict d =>
      "{" +:+ join ", " (map (λ kv, repr_of_str kv.1 +:+ ": " +:+ py_repr kv.2) d) +:+ "}"
  | VObj l => repr_of_obj l
  end.

(** [str(v)]: the text itself for a [str], [__str__] for an object, and
    [repr] for everything else. *)
Definition py_str (v : Value) : string :=
  match v with
  | VStr s => s
  | VObj l => str_of_obj l
  | _ => py_repr v
  end.
End rendering.

(** ** Classes and exceptions *)

(** A class is known by its qualified name and its method resolution order
    (the names of the class itself and of all its bases). *)
Record PyClass := { qualname : string; mro : list string }.

#[global] Instance PyClass_eq_dec : EqDecision PyClass.
Proof. solve_decision. Defined.

#[global] Instance PyClass_countable : Countable PyClass :=
  inj_countable' (λ c, (qualname c, mro c))
                 (λ p, {| qualname := p.1; mro := p.2 |})
                 (λ c, match c with Build_PyClass _ _ => eq_refl end).

(** [issubclass(c, base)] *)
Definition issubclass (c : PyClass) (base : string) : bool :=
  bool_decide (base ∈ mro c).

Definition exception_mro : list string := ["Exception"; "BaseException"; "object"].

Definition builtin_exception (name : string) (bases : list string) : PyClass :=
  {| qualname := name; mro := name :: bases ++ exception_mro |}.

Definition KeyError : PyClass := builtin_exception "KeyError" ["LookupError"].
Definition TypeError : PyClass := builtin_exception "TypeError" [].
Definition AttributeError : PyClass := builtin_exception "AttributeError" [].

Definition LookupError : PyClass := builtin_exception "LookupError" [].

(** An exception in flight: its class and its positional arguments. *)
Record Raised := { raised_type : PyClass; raised_args : list Value }.

Inductive Outcome (A : Type) : Type :=
| Ret (a : A)
| Raise (e : Raised).
Arguments Ret {A} a.
Arguments Raise {A} e.

(** The slots a class of this module adds to an exception instance. *)
Inductive Slots : Type :=
| NoSlots
| ErrorResponseSlots (message : Value)
| InvocationErrorSlots (uri : URI) (args kwargs details : Value).

(** An exception instance: its class, [BaseException.args], the slots of its
    class and its instance [__dict__]. *)
Record ExcObj := {
  exc_type : PyClass;
  exc_args : list Value;
  exc_slots : Slots;
  exc_dict : gmap string Value
}.

(** [isinstance(e, cls)] *)
Definition isinstance (e : ExcObj) (cls : PyClass) : bool :=
  issubclass (exc_type e) (qualname cls).

(** Heap objects: error messages and exceptions.

    Modelled from the spec: the class [aiowamp.msg.Error], which is not
    among the sources.  Per section 3 an error message carries [error] (a
    URI), [args], [kwargs] and [details]. *)
Inductive Obj : Type :=
| OErrorMsg (error : URI) (args kwargs details : Value)
| OExc (e : ExcObj).

(** Records emitted on the module's logger. *)
Inductive LogRecord : Type :=
| LogOverwriting (exc err : loc)
| LogNoUriRegistered (exc_qualname : string) (fallback : URI).

Record Store := { heap : gmap loc Obj; log : list LogRecord }.

(** ** Computations

    A computation runs on the store and either returns, raises, or is
    undefined ([None]): it was handed a reference that is dangling or of the
    wrong kind for its type annotation, which Python code cannot do. *)
Definition M (A : Type) : Type := Store → option (Outcome A * Store).

#[global] Instance M_ret : MRet M := λ A a σ, Some (Ret a, σ).

#[global] Instance M_bind : MBind M := λ A B k m σ,
  match m σ with
  | Some (Ret a, σ') => k a σ'
  | Some (Raise e, σ') => Some (Raise e, σ')
  | None => None
  end.

Definition raise {A} (cls : PyClass) (args : list Value) : M A :=
  λ σ, Some (Raise {| raised_type := cls; raised_args := args |}, σ).

(** [except cls]: does the clause catch [e]? *)
Definition catches (cls : PyClass) (e : Raised) : bool :=
  issubclass (raised_type e) (qualname cls).

(** [try: m  except cls: h] *)
Definition try_except {A} (m : M A) (cls : PyClass) (h : M A) : M A := λ σ,
  match m σ with
  | Some (Raise e, σ') => if catches cls e then h σ' else Some (Raise e, σ')
  | r => r
  end.

Definition get_exc (l : loc) : M ExcObj := λ σ,
  match heap σ !! l with
  | Some (OExc e) => Some (Ret e, σ)
  | _ => None
  end.

Definition set_obj (l : loc) (o : Obj) : M unit := λ σ,
  Some (Ret (), {| heap := <[l := o]> (heap σ); log := log σ |}).

(** A new object gets an identity no live object has. *)
Definition alloc (o : Obj) : M loc := λ σ,
  let l := fresh (dom (heap σ)) in
  Some (Ret l, {| heap := <[l := o]> (heap σ); log := log σ |}).

Definition emit (r : LogRecord) : M unit := λ σ,
  Some (Ret (), {| heap := heap σ; log := log σ ++ [r] |}).

(** [message.error] *)
Definition msg_error (message : loc) : M URI := λ σ,
  match heap σ !! message with
  | Some (OErrorMsg error _ _ _) => Some (Ret error, σ)
  | _ => None
  end.

(** [message.args] *)
Definition msg_args (message : loc) : M Value := λ σ,
  match heap σ !! message with
  | Some (OErrorMsg _ args _ _) => Some (Ret args, σ)
  | _ => None
  end.

(** [message.kwargs] *)
Definition msg_kwargs (message : loc) : M Value := λ σ,
  match heap σ !! message with
  | Some (OErrorMsg _ _ kwargs _) => Some (Ret kwargs, σ)
  | _ => None
  end.

(** A step that does not touch the store. *)
Definition pure_step {A} (o : Outcome A) : M A := λ σ, Some (o, σ).

Definition with_slots (e : ExcObj) (s : Slots) : ExcObj :=
  {| exc_type := exc_type e; exc_args := exc_args e;
     exc_slots := s; exc_dict := exc_dict e |}.

(** [setattr(e, name, v)] on the instance [__dict__] *)
Definition with_attr (e : ExcObj) (name : string) (v : Value) : ExcObj :=
  {| exc_type := exc_type e; exc_args := exc_args e;
     exc_slots := exc_slots e; exc_dict := <[name := v]> (exc_dict e) |}.

(** Iterating a value, as [tuple(v)] and [map(f, v)] do: the elements of a
    list or tuple, the keys of a dict, the characters of a string;
    [TypeError] for anything else. *)
Definition py_iter (v : Value) : Outcome (list Value) :=
  match v with
  | VList l | VTuple l => Ret l
  | VDict d => Ret (map (λ kv, VStr kv.1) d)
  | VStr s => Ret (map (λ c, VStr (String c "")) (String.list_ascii_of_string s))
  | _ => Raise {| raised_type := TypeError; raised_args := [VStr "object is not iterable"] |}
  end.

(** [tuple(v)] *)
Definition py_tuple (v : Value) : Outcome Value :=
  match py_iter v with
  | Ret l => Ret (VTuple l)
  | Raise e => Raise e
  end.

(** [v.items()]: the items of a dict; no other value has the method. *)
Definition py_items (v : Value) : Outcome (list (string * Value)) :=
  match v with
  | VDict d => Ret d
  | _ => Raise {| raised_type := AttributeError; raised_args := [VStr "items"] |}
  end.

(** [d[key]] on the items of a dict. *)
Fixpoint dict_get (d : list (string * Value)) (key : string) : option Value :=
  match d with
  | [] => None
  | (k, v) :: d => if String.eqb k key then Some v else dict_get d key
  end.

(** [v[key]] for a string key: the value under the key in a dict,
    [KeyError] when the dict lacks it, [TypeError] for a value that is not a
    dict. *)
Definition py_getitem (v : Value) (key : string) : Outcome Value :=
  match v with
  | VDict d =>
      match dict_get d key with
      | Some x => Ret x
      | None => Raise {| raised_type := KeyError; raised_args := [VStr key] |}
      end
  | _ => Raise {| raised_type := TypeError;
                  raised_args := [VStr "object is not subscriptable"] |}
  end.

(** ** [aiowamp.uri] and [aiowamp.uri_map] *)

(** Modelled from the spec: [URI.as_uri] of [aiowamp/uri.py], which is not
    among the sources.  Per section 3 a URI is "string-like" and
    "constructible from a raw string with validation": [as_uri] returns the
    URI with the text it is given.  The spec does not say which strings the
    validation rejects; this is [as_uri] on a string it accepts. *)
Definition as_uri (uri : string) : URI := uri.

Module URIMap.
(** Modelled from the spec: the class [URIMap] of [aiowamp/uri_map.py],
    which is not among the sources.  Per section 4.1 it maps URIs to values
    with exact-key semantics. *)
Abbreviation t V := (gmap URI V).

(** Modelled from the spec: [URIMap.__setitem__], not among the sources;
    it "stores [value] under [uri], overwriting any prior value for that
    exact key". *)
Definition setitem {V} (uri : URI) (value : V) (m : t V) : t V := <[uri := value]> m.

(** Modelled from the spec: [URIMap.__getitem__], not among the sources; it
    "returns the stored value for [uri]; if [uri] was never registered,
    resolution fails with a lookup-not-found signal", a [KeyError]. *)
Definition getitem {V} (m : t V) (uri : URI) : M V :=
  match m !! uri with
  | Some v => mret v
  | None => raise KeyError [VStr uri]
  end.
End URIMap.

(** ** [aiowamp/errors.py] *)

Module ErrorResponse.
(** [class ErrorResponse(Error)], with [class Error(Exception)] *)
Definition cls : PyClass := builtin_exception "ErrorResponse" ["Error"].

(** [def __init__(self, message)]: the slots of the new instance *)
Definition __init__ (message : Value) : Slots := ErrorResponseSlots message.

(** The call [ErrorResponse(message)]: [BaseException.__new__] records
    the positional arguments, [__init__] fills the slot. *)
Definition new (message : Value) : M Value :=
  l ← alloc (OExc {| exc_type := cls; exc_args := [message];
                     exc_slots := __init__ message; exc_dict := ∅ |});
  mret (VObj l).

(** [self.message] *)
Definition message (self : loc) : M Value :=
  e ← get_exc self;
  match exc_slots e with
  | ErrorResponseSlots message => mret message
  | _ => raise AttributeError [VStr "message"]
  end.

(** [message.attr] for the value held in the slot: a reference is followed,
    any other value has no such attribute. *)
Definition message_attr {A} (attr : string) (read : loc → M A) (message : Value) : M A :=
  match message with
  | VObj m => read m
  | _ => raise AttributeError [VStr attr]
  end.

(** [def uri(self)], a property *)
Definition uri (self : loc) : M URI :=
  message ← message self;
  message_attr "error" msg_error message.

Section rendering.
Context `{Rendering}.

(** [def __str__(self)] *)
Definition __str__ (self : loc) : M string :=
  message ← message self;
  error ← message_attr "error" msg_error message;
  let s := error in
  args ← message_attr "args" msg_args message;
  l ← pure_step (py_iter args);
  let args_str := join ", " (map py_repr l) in
  let s := if negb (String.eqb args_str "") then s +:+ " " +:+ args_str else s in
  kwargs ← message_attr "kwargs" msg_kwargs message;
  items ← pure_step (py_items kwargs);
  let kwargs_str := join ", " (map (λ kv, kv.1 +:+ "=" +:+ py_repr kv.2) items) in
  let s := if negb (String.eqb kwargs_str "") then s +:+ " (" +:+ kwargs_str +:+ ")" else s in
  mret s.
End rendering.
End ErrorResponse.

(** [ErrorFactory = Callable[[aiowamp.msg.Error], Exception]]: called with
    the message, a factory may read and allocate objects, and may raise. *)
Definition ErrorFactory : Type := loc → M Value.

(** What a caller hands to the decorator of [register_error_response]. *)
Inductive Registrant : Type :=
| Callable (f : ErrorFactory)
| NotCallable (v : Value).

(** [def register_error_response(uri)], applied to [cls]; the global
    [ERR_RESP_MAP] is passed in and returned. *)
Definition register_error_response (uri : string)
    : Registrant → URIMap.t ErrorFactory → Outcome Registrant * URIMap.t ErrorFactory :=
  let uri := as_uri uri in
  λ cls ERR_RESP_MAP,
    match cls with
    | NotCallable _ =>
        (Raise {| raised_type := TypeError;
                  raised_args := [VStr "error factory must be callable"] |},
         ERR_RESP_MAP)
    | Callable f => (Ret cls, URIMap.setitem uri f ERR_RESP_MAP)
    end.

Definition get_exception_factory (ERR_RESP_MAP : URIMap.t ErrorFactory) (uri : URI)
    : M ErrorFactory :=
  URIMap.getitem ERR_RESP_MAP uri.

Definition error_to_exception (ERR_RESP_MAP : URIMap.t ErrorFactory) (message : loc)
    : M Value :=
  try_except
    (error ← msg_error message;
     factory ← get_exception_factory ERR_RESP_MAP error;
     factory message)
    LookupError
    (ErrorResponse.new (VObj message)).

(** [EXC_URI_MAP[exc]] on a [dict] keyed by exception classes; the key of the
    [KeyError] is shown by its name. *)
Definition get_exception_uri (EXC_URI_MAP : gmap PyClass URI) (exc : PyClass) : M URI :=
  match EXC_URI_MAP !! exc with
  | Some uri => mret uri
  | None => raise KeyError [VStr (qualname exc)]
  end.

(** [exc.name] on an exception: the slots and properties of its class
    and [BaseException.args] come first, then the instance [__dict__];
    [AttributeError] when neither has the name. *)
Definition exc_getattr (exc : loc) (name : string) : M Value :=
  x ← get_exc exc;
  let from_dict : M Value :=
    match exc_dict x !! name with
    | Some v => mret v
    | None => raise AttributeError [VStr name]
    end in
  match exc_slots x with
  | InvocationErrorSlots uri args kwargs details =>
      if String.eqb name "uri" then mret (VStr uri)
      else if String.eqb name "args" then mret args
      else if String.eqb name "kwargs" then mret kwargs
      else if String.eqb name "details" then mret details
      else from_dict
  | ErrorResponseSlots message =>
      if String.eqb name "message" then mret message
      else if String.eqb name "uri" then (uri ← ErrorResponse.uri exc; mret (VStr uri))
      else if String.eqb name "args" then mret (VTuple (exc_args x))
      else from_dict
  | NoSlots =>
      if String.eqb name "args" then mret (VTuple (exc_args x))
      else from_dict
  end.

(** [m], with the effect [done] applied before an exception of [m]
    propagates. *)
Definition unwinding {A} (done : M ()) (m : M A) : M A := λ σ,
  match m σ with
  | Some (Raise e, σ') =>
      match done σ' with
      | Some (_, σ'') => Some (Raise e, σ'')
      | None => None
      end
  | r => r
  end.

Module InvocationError.
(** [class InvocationError(Error)] *)
Definition cls : PyClass := builtin_exception "InvocationError" ["Error"].

(** [def __init__(self, uri, *args, kwargs=None, details=None)]: the slots
    of the new instance; [args] is the tuple of the extra positional
    arguments. *)
Definition __init__ (uri : string) (args : list Value) (kwargs details : Value) : Slots :=
  InvocationErrorSlots (as_uri uri)
                       (py_or (VList args) VNone)
                       (py_or kwargs VNone)
                       (py_or details VNone).

(** The call [InvocationError(uri, *args, kwargs=..., details=...)].  The
    slot [args] shadows [BaseException.args], which still records every
    positional argument of the call. *)
Definition new (uri : string) (args : list Value) (kwargs details : Value) : M Value :=
  l ← alloc (OExc {| exc_type := cls; exc_args := VStr uri :: args;
                     exc_slots := __init__ uri args kwargs details; exc_dict := ∅ |});
  mret (VObj l).

(** The slots of an instance after [self.uri = uri] and the assignments to
    [args], [kwargs] and [details] that are given a value; a slot given no
    value keeps the one it has.  The slot [uri] holds a URI; [None] where
    the outcome is not an instance the model has (a [uri] that is no string,
    a slot left unset). *)
Definition assign (self : Slots) (uri : Value) (args kwargs details : option Value)
    : option Slots :=
  match uri with
  | VStr uri =>
      match self, args, kwargs, details with
      | InvocationErrorSlots _ args0 kwargs0 details0, _, _, _ =>
          Some (InvocationErrorSlots uri (default args0 args) (default kwargs0 kwargs)
                                     (default details0 details))
      | _, Some args, Some kwargs, Some details =>
          Some (InvocationErrorSlots uri args kwargs details)
      | _, _, _, _ => None
      end
  | _ => None
  end.

(** The assignments of [_init] made so far, stored in [self]. *)
Definition assigned (self : loc) (uri : Value) (args kwargs details : option Value)
    : M unit :=
  s ← get_exc self;
  match assign (exc_slots s) uri args kwargs details with
  | Some slots => set_obj self (OExc (with_slots s slots))
  | None => λ _, None
  end.

(** [def _init(self, other)]: [self.uri = other.uri], [self.args =
    other.args], [self.kwargs = other.kwargs], [self.details =
    other.details], in this order.  An assignment stores in [self] what
    [other] holds, so no read of [other] depends on the assignments made
    before it: when a read raises, the assignments made so far are stored
    before the [AttributeError] propagates, and all four when none does. *)
Definition _init (self other : loc) : M unit :=
  uri ← exc_getattr other "uri";
  args ← unwinding (assigned self uri None None None)
                   (exc_getattr other "args");
  kwargs ← unwinding (assigned self uri (Some args) None None)
                     (exc_getattr other "kwargs");
  details ← unwinding (assigned self uri (Some args) (Some kwargs) None)
                      (exc_getattr other "details");
  assigned self uri (Some args) (Some kwargs) (Some details).

Section rendering.
Context `{Rendering}.

(** [def __str__(self)] *)
Definition __str__ (self : Slots) : Outcome string :=
  match self with
  | InvocationErrorSlots uri args _ _ =>
      if truthy args then
        match py_iter args with
        | Ret l =>
            let args_str := join ", " (map py_str l) in
            Ret (uri +:+ " " +:+ args_str)
        | Raise e => Raise e
        end
      else Ret uri
  | _ => Raise {| raised_type := AttributeError; raised_args := [VStr "args"] |}
  end.

(** [repr] of an [aiowamp.URI], decided by the class [URI] of
    [aiowamp/uri.py], which is not among the sources. *)
Variable repr_of_uri : URI → string.

(** [def __repr__(self)]; [qualname] is [type(self).__qualname__]. *)
Definition __repr__ (qualname : string) (self : Slots) : Outcome string :=
  match self with
  | InvocationErrorSlots uri args kwargs details =>
      match (if truthy args then
               match py_iter args with
               | Ret l => Ret (", " +:+ join ", " (map py_repr l))
               | Raise e => Raise e
               end
             else Ret "") with
      | Ret args_str =>
          let kwargs_str := if truthy kwargs then ", kwargs=" +:+ py_repr kwargs else "" in
          let details_str := if truthy details then ", details=" +:+ py_repr details else "" in
          Ret (qualname +:+ "(" +:+ repr_of_uri uri +:+ args_str +:+ kwargs_str
                        +:+ details_str +:+ ")")
      | Raise e => Raise e
      end
  | _ => Raise {| raised_type := AttributeError; raised_args := [VStr "args"] |}
  end.
End rendering.
End InvocationError.

Definition ATTACHED_ERR_KEY : string := "__invocation_error__".

Definition set_invocation_error (exc err : loc) : M unit :=
  x ← get_exc exc;
  if isinstance x InvocationError.cls then
    _ ← emit (LogOverwriting exc err);
    InvocationError._init exc err
  else
    set_obj exc (OExc (with_attr x ATTACHED_ERR_KEY (VObj err))).

Section outbound.
(** [aiowamp.uri.RUNTIME_ERROR], a constant of [aiowamp/uri.py], which is
    not among the sources. *)
Variable RUNTIME_ERROR : URI.

Definition exception_to_invocation_error (EXC_URI_MAP : gmap PyClass URI) (exc : loc)
    : M Value :=
  x ← get_exc exc;
  if isinstance x InvocationError.cls then mret (VObj exc)
  else
    match exc_dict x !! ATTACHED_ERR_KEY with
    | Some attached => mret attached
    | None =>
        uri ← try_except
                (get_exception_uri EXC_URI_MAP (exc_type x))
                LookupError
                (_ ← emit (LogNoUriRegistered (qualname (exc_type x)) RUNTIME_ERROR);
                 mret RUNTIME_ERROR);
        InvocationError.new uri (exc_args x) VNone VNone
    end.
End outbound.

Module Interrupt.
(** The slot of an [Interrupt]. *)
Record t := { options : Value }.

(** [def __init__(self, options)] *)
Definition __init__ (options : Value) : t := {| options := options |}.

(** [def cancel_mode(self)], a property: [self.options["mode"]] *)
Definition cancel_mode (self : t) : Outcome Value := py_getitem (options self) "mode".
End Interrupt.

(** ** [aiowamp/client/event.py] *)

Module msg.
(** Modelled from the spec: the class [aiowamp.msg.Event], which is not
    among the sources.  These are the attributes the constructor of
    [SubscriptionEvent] reads: the publication id, the positional and
    keyword payload and the details. *)
Record Event := {
  publication_id : Z;
  args : Value;
  kwargs : Value;
  details : Value
}.
End msg.

Module SubscriptionEvent.
(** The slots of a [SubscriptionEvent]. *)
Record t := {
  __client : loc;
  __topic : URI;
  __publication_id : Z;
  __args : Value;
  __kwargs : Value;
  __details : Value
}.

(** [def __init__(self, client, msg, *, topic)] *)
Definition __init__ (client : loc) (msg : msg.Event) (topic : URI) : Outcome t :=
  match (if truthy (msg.args msg) then py_tuple (msg.args msg) else Ret (VTuple [])) with
  | Ret args =>
      Ret {| __client := client;
             __topic := topic;
             __publication_id := msg.publication_id msg;
             __args := args;
             __kwargs := py_or (msg.kwargs msg) (VDict []);
             __details := msg.details msg |}
  | Raise e => Raise e
  end.

(** The properties [client], [publication_id] and [subscribed_topic]. *)
Definition client (self : t) : loc := __client self.
Definition publication_id (self : t) : Z := __publication_id self.
Definition subscribed_topic (self : t) : URI := __topic self.

(** The properties [args], [kwargs] and [details]. *)
Definition args (self : t) : Value := __args self.
Definition kwargs (self : t) : Value := __kwargs self.
Definition details (self : t) : Value := __details self.
End SubscriptionEvent.

(** ** Vocabulary of the properties *)

(** [v] fits [Optional[WAMPDict]]. *)
Definition optional_dict (v : Value) : bool :=
  match v with VNone | VDict _ => true | _ => false end.

(** [v] fits [Optional[WAMPList]]. *)
Definition optional_list (v : Value) : bool :=
  match v with VNone | VList _ => true | _ => false end.

(** [v] is [None] or a container with at least one element. *)
Definition none_or_nonempty (v : Value) : bool :=
  match v with
  | VNone | VList (_ :: _) | VDict (_ :: _) => true
  | _ => false
  end.

(** The store with no object and no log record. *)
Definition empty_store : Store := {| heap := ∅; log := [] |}.

(** The instance [InvocationError(uri, *args)] denotes. *)
Definition InvocationError_of (uri : URI) (args : list Value) : Obj :=
  OExc {| exc_type := InvocationError.cls;
          exc_args := VStr uri :: args;
          exc_slots := InvocationErrorSlots
                         uri (match args with [] => VNone | _ => VList args end) VNone VNone;
          exc_dict := ∅ |}.

(** [r] is the outcome of returning a new object [o], allocated in [σ],
    after emitting the log records [rs]. *)
Definition returns_new (r : option (Outcome Value * Store)) (σ : Store)
    (rs : list LogRecord) (o : Obj) : Prop :=
  ∃ l, heap σ !! l = None ∧
       r = Some (Ret (VObj l), {| heap := <[l := o]> (heap σ); log := log σ ++ rs |}).

(** The elements of a list or tuple. *)
Definition sequence_of (v : Value) : option (list Value) :=
  match v with
  | VList l | VTuple l => Some l
  | _ => None
  end.

(** C4 as the specification states it: for an exception [x] that is not an
    [InvocationError], has nothing attached and whose type is not
    registered, the result is an [InvocationError] whose URI is the generic
    runtime-error URI and whose args are the positional arguments of [x]. *)
Definition generic_fallback_args_as_stated
    (RUNTIME_ERROR : URI) (EXC_URI_MAP : gmap PyClass URI)
    (σ : Store) (exc : loc) (x : ExcObj) : Prop :=
  heap σ !! exc = Some (OExc x) →
  isinstance x InvocationError.cls = false →
  exc_dict x !! ATTACHED_ERR_KEY = None →
  EXC_URI_MAP !! exc_type x = None →
  ∃ l σ' e args kwargs details,
    exception_to_invocation_error RUNTIME_ERROR EXC_URI_MAP exc σ
      = Some (Ret (VObj l), σ') ∧
    heap σ' !! l = Some (OExc e) ∧
    exc_slots e = InvocationErrorSlots RUNTIME_ERROR args kwargs details ∧
    sequence_of args = Some (exc_args x).

Definition ValueError : PyClass := builtin_exception "ValueError" [].

(** The instance [ValueError] called on [args] denotes. *)
Definition ValueError_of (args : list Value) : ExcObj :=
  {| exc_type := ValueError; exc_args := args; exc_slots := NoSlots; exc_dict := ∅ |}.

(** A store whose only object is [o], at location 1. *)
Definition store_of (o : Obj) : Store := {| heap := {[ 1%positive := o ]}; log := [] |}.

(** [ValueError("bad")] carrying an attachment to the object at location 2. *)
Definition ValueError_attached : ExcObj :=
  with_attr (ValueError_of [VStr "bad"]) ATTACHED_ERR_KEY (VObj 2%positive).

(** Three [InvocationError]s, at locations 1, 2 and 3. *)
Definition three_errors : Store :=
  {| heap := <[1%positive := InvocationError_of "com.example.first" []]>
               (<[2%positive := InvocationError_of "com.example.second" [VInt 1]]>
                  {[ 3%positive := InvocationError_of "com.example.third" [VStr "a"; VInt 2] ]});
     log := [] |}.

Definition error_at (σ : Store) (l : loc) : ExcObj :=
  match heap σ !! l with
  | Some (OExc e) => e
  | _ => ValueError_of []
  end.

(** The instance [ErrorResponse(message)] denotes. *)
Definition ErrorResponse_of (message : loc) : Obj :=
  OExc {| exc_type := ErrorResponse.cls;
          exc_args := [VObj message];
          exc_slots := ErrorResponseSlots (VObj message);
          exc_dict := ∅ |}.

(** [ERR_RESP_MAP] after the registrations [regs], made in order on the
    registry [R]. *)
Definition registry_from (R : URIMap.t ErrorFactory) (regs : list (string * Registrant))
    : URIMap.t ErrorFactory :=
  foldl (λ R reg, (register_error_response reg.1 reg.2 R).2) R regs.

(** The URIs [regs] registers a factory for. *)
Definition registered_uris (regs : list (string * Registrant)) : list URI :=
  omap (λ reg, match reg.2 with
               | Callable _ => Some (as_uri reg.1)
               | NotCallable _ => None
               end) regs.

(** A factory building [ValueError(message)]. *)
Definition value_error_factory : ErrorFactory := λ message,
  l ← alloc (OExc (ValueError_of [VObj message]));
  mret (VObj l).

(** A factory that fails with [KeyError("missing")]. *)
Definition key_error_factory : ErrorFactory := λ _, raise KeyError [VStr "missing"].

(** A factory that fails with [ValueError("bad")]. *)
Definition failing_factory : ErrorFactory := λ _, raise ValueError [VStr "bad"].

(** A store whose only object is a message with the error URI [error]. *)
Definition message_store (error : URI) : Store :=
  store_of (OErrorMsg error (VList [VInt 1]) (VDict []) (VDict [])).

(** The slots of an [InvocationError] hold [None] or non-empty containers
    in [args], [kwargs] and [details]. *)
Definition slots_ok (s : Slots) : bool :=
  match s with
  | InvocationErrorSlots _ args kwargs details =>
      none_or_nonempty args && none_or_nonempty kwargs && none_or_nonempty details
  | _ => true
  end.

(** Every exception of the heap has such slots. *)
Definition heap_ok (h : gmap loc Obj) : Prop :=
  ∀ l e, h !! l = Some (OExc e) → slots_ok (exc_slots e) = true.

(** [args or ()] for the [args] slot of an [InvocationError]. *)
Definition positional (args : Value) : list Value :=
  match args with
  | VList l => l
  | _ => []
  end.

(** The values [py_iter] iterates. *)
Definition iterable (v : Value) : bool :=
  match v with
  | VList _ | VTuple _ | VDict _ | VStr _ => true
  | _ => false
  end.

(** A [ValueError("bad")] at location 1 and the [InvocationError]
    ["com.example.second"] at location 2. *)
Definition error_and_attachment : Store :=
  {| heap := <[1%positive := OExc (ValueError_of [VStr "bad"])]>
               {[ 2%positive := InvocationError_of "com.example.second" [VInt 1] ]};
     log := [] |}.

(** A message at location 1 and, at location 2, the [ErrorResponse]
    wrapping it; the message has the given [args] and [kwargs]. *)
Definition wrapped_message (args kwargs : Value) : Store :=
  {| heap := <[1%positive := OErrorMsg "com.example.unknown" args kwargs (VDict [])]>
               {[ 2%positive := ErrorResponse_of 1%positive ]};
     log := [] |}.

(** A rendering for the examples: a [str] is shown between single quotes,
    an object by a fixed text. *)
Definition example_rendering : Rendering :=
  {| repr_of_str := λ s, "'" +:+ s +:+ "'";
     str_of_obj := λ _, "<object>";
     repr_of_obj := λ _, "<object>" |}.

(** The store [wrapped_message] with, at location 3, the
    [InvocationError] ["com.example.third"]. *)
Definition wrapped_message_and_error : Store :=
  {| heap := <[3%positive := InvocationError_of "com.example.third" [VInt 2]]>
               (heap (wrapped_message (VList [VInt 1]) (VDict [])));
     log := [] |}.

(** * Properties *)

(** ** Running computations *)

Lemma bind_ret {A B} (m : M A) (k : A → M B) σ a σ' :
  m σ = Some (Ret a, σ') → (m ≫= k) σ = k a σ'.
Proof. intros Hm. unfold mbind, M_bind. by rewrite Hm. Qed.

Lemma get_exc_some l σ x :
  heap σ !! l = Some (OExc x) → get_exc l σ = Some (Ret x, σ).
Proof. intros Hl. unfold get_exc. by rewrite Hl. Qed.

Lemma try_except_ret {A} (m h : M A) cls σ a σ' :
  m σ = Some (Ret a, σ') → try_except m cls h σ = Some (Ret a, σ').
Proof. intros Hm. unfold try_except. by rewrite Hm. Qed.

Lemma try_except_caught {A} (m h : M A) cls σ e σ' :
  m σ = Some (Raise e, σ') → catches cls e = true → try_except m cls h σ = h σ'.
Proof. intros Hm Hc. unfold try_except. by rewrite Hm, Hc. Qed.

Lemma KeyError_is_LookupError args :
  catches LookupError {| raised_type := KeyError; raised_args := args |} = true.
Proof. reflexivity. Qed.

(** A new object does not alias a live one. *)
Lemma alloc_fresh (h : gmap loc Obj) : h !! fresh (dom h) = None.
Proof. apply not_elem_of_dom, is_fresh. Qed.

(** ** The constructor and the rendering of [InvocationError] *)

Lemma InvocationError_new_eq uri args kwargs details σ :
  InvocationError.new uri args kwargs details σ =
  Some (Ret (VObj (fresh (dom (heap σ)))),
        {| heap := <[fresh (dom (heap σ)) :=
                       OExc {| exc_type := InvocationError.cls;
                               exc_args := VStr uri :: args;
                               exc_slots := InvocationError.__init__ uri args kwargs details;
                               exc_dict := ∅ |}]> (heap σ);
           log := log σ |}).
Proof. reflexivity. Qed.

Lemma py_or_None_optional_dict v :
  optional_dict v = true →
  py_or v VNone = match v with VDict (_ :: _) => v | _ => VNone end.
Proof. by destruct v as [| | | | | |[|]|]. Qed.

(** C7: every [InvocationError] built by the constructor holds, in each of
    [args], [kwargs] and [details], either [None] or a non-empty container:
    [args] is [None] when no positional argument is supplied, and [kwargs]
    and [details] are [None] when not supplied or supplied empty; what is
    supplied non-empty is kept. *)
Theorem InvocationError_fields_none_or_nonempty
    (uri : string) (args : list Value) (kwargs details : Value) (σ : Store) :
  optional_dict kwargs = true →
  optional_dict details = true →
  ∃ l σ' e a k d,
    InvocationError.new uri args kwargs details σ = Some (Ret (VObj l), σ') ∧
    heap σ' !! l = Some (OExc e) ∧
    exc_slots e = InvocationErrorSlots (as_uri uri) a k d ∧
    none_or_nonempty a = true ∧ none_or_nonempty k = true ∧ none_or_nonempty d = true ∧
    a = match args with [] => VNone | _ => VList args end ∧
    k = match kwargs with VDict (_ :: _) => kwargs | _ => VNone end ∧
    d = match details with VDict (_ :: _) => details | _ => VNone end.
Proof.
  intros Hk Hd. rewrite InvocationError_new_eq.
  eexists _, _, _, _, _, _. split; [reflexivity|].
  split; [apply lookup_insert_eq|]. cbn [exc_slots InvocationError.__init__].
  split; [reflexivity|].
  rewrite (py_or_None_optional_dict kwargs Hk), (py_or_None_optional_dict details Hd).
  repeat split.
  - by destruct args.
  - by destruct kwargs as [| | | | | |[|]|].
  - by destruct details as [| | | | | |[|]|].
  - by destruct args.
Qed.

Lemma InvocationError_fields_none_or_nonempty_witness :
  optional_dict (VDict []) = true ∧
  optional_dict VNone = true ∧
  ∃ l σ' e a k d,
    InvocationError.new "com.example.bad_arg" [] (VDict []) VNone empty_store
      = Some (Ret (VObj l), σ') ∧
    heap σ' !! l = Some (OExc e) ∧
    exc_slots e = InvocationErrorSlots (as_uri "com.example.bad_arg") a k d ∧
    none_or_nonempty a = true ∧ none_or_nonempty k = true ∧ none_or_nonempty d = true ∧
    a = VNone ∧ k = VNone ∧ d = VNone.
Proof.
  split; [reflexivity|]. split; [reflexivity|].
  apply (InvocationError_fields_none_or_nonempty
           "com.example.bad_arg" [] (VDict []) VNone empty_store);
    reflexivity.
Defined.

Section rendering_properties.
Context `{Rendering}.

(** C8: an [InvocationError] renders as its URI, a space and its args
    joined by a comma and a space when it has args, and as its URI alone
    when it has none; [kwargs] and [details] take no part.
    [InvocationError("com.example.bad_arg", 1, 2, kwargs={"x": 3})] renders
    as ["com.example.bad_arg 1, 2"]. *)
Theorem InvocationError_str_uri_then_args :
  (∀ uri l kwargs details,
     InvocationError.__str__ (InvocationErrorSlots uri (VList l) kwargs details)
     = Ret (match l with
            | [] => uri
            | _ => uri +:+ " " +:+ join ", " (map py_str l)
            end)) ∧
  (∀ uri kwargs details,
     InvocationError.__str__ (InvocationErrorSlots uri VNone kwargs details) = Ret uri) ∧
  (∀ uri args kwargs details,
     InvocationError.__str__ (InvocationError.__init__ uri args kwargs details)
     = Ret (match args with
            | [] => as_uri uri
            | _ => as_uri uri +:+ " " +:+ join ", " (map py_str args)
            end)) ∧
  InvocationError.__str__
    (InvocationError.__init__ "com.example.bad_arg" [VInt 1; VInt 2]
                              (VDict [("x", VInt 3)]) VNone)
  = Ret "com.example.bad_arg 1, 2".
Proof.
  split; [by intros uri [|x l] kwargs details|].
  split; [done|].
  split; [by intros uri [|x l] kwargs details|].
  reflexivity.
Qed.
End rendering_properties.

(** ** The payload of a [SubscriptionEvent] *)

(** C10: a [SubscriptionEvent] built from a client, an event message and a
    topic has a tuple as [args] (the empty tuple when the message's args are
    absent or empty, the message's elements otherwise) and a mapping as
    [kwargs] (the empty mapping when the message's kwargs are absent, the
    message's mapping otherwise), while [details] is the message's details
    as given. *)
Theorem SubscriptionEvent_payload_normalised
    (client : loc) (m : msg.Event) (topic : URI) :
  optional_list (msg.args m) = true →
  optional_dict (msg.kwargs m) = true →
  ∃ ev,
    SubscriptionEvent.__init__ client m topic = Ret ev ∧
    is_tuple (SubscriptionEvent.args ev) = true ∧
    SubscriptionEvent.args ev
      = match msg.args m with VList l => VTuple l | _ => VTuple [] end ∧
    is_dict (SubscriptionEvent.kwargs ev) = true ∧
    SubscriptionEvent.kwargs ev
      = match msg.kwargs m with VDict d => VDict d | _ => VDict [] end ∧
    SubscriptionEvent.details ev = msg.details m.
Proof.
  destruct m as [pid a k d]; cbn [msg.args msg.kwargs msg.details].
  intros Ha Hk. unfold SubscriptionEvent.__init__; cbn [msg.args msg.kwargs msg.details].
  destruct a as [| | | |[|x l]| | |]; try discriminate Ha;
    destruct k as [| | | | | |[|kv kd]|]; try discriminate Hk;
    eexists; (split; [reflexivity|]); by repeat split.
Qed.

Lemma SubscriptionEvent_payload_normalised_witness :
  let m := {| msg.publication_id := 7; msg.args := VList [VInt 1; VStr "a"];
              msg.kwargs := VNone; msg.details := VDict [] |} in
  optional_list (msg.args m) = true ∧
  optional_dict (msg.kwargs m) = true ∧
  ∃ ev,
    SubscriptionEvent.__init__ 1%positive m "com.example.topic" = Ret ev ∧
    is_tuple (SubscriptionEvent.args ev) = true ∧
    SubscriptionEvent.args ev = VTuple [VInt 1; VStr "a"] ∧
    is_dict (SubscriptionEvent.kwargs ev) = true ∧
    SubscriptionEvent.kwargs ev = VDict [] ∧
    SubscriptionEvent.details ev = VDict [].
Proof.
  intros m. split; [reflexivity|]. split; [reflexivity|].
  apply (SubscriptionEvent_payload_normalised 1%positive m "com.example.topic");
    reflexivity.
Defined.

(** ** Outbound translation *)

Lemma InvocationError_init_positional uri args :
  InvocationError.__init__ uri args VNone VNone
  = InvocationErrorSlots uri (match args with [] => VNone | _ => VList args end) VNone VNone.
Proof. by destruct args. Qed.

Lemma exception_to_invocation_error_unfold RUNTIME_ERROR E σ exc x :
  heap σ !! exc = Some (OExc x) →
  exception_to_invocation_error RUNTIME_ERROR E exc σ =
  if isinstance x InvocationError.cls then Some (Ret (VObj exc), σ)
  else match exc_dict x !! ATTACHED_ERR_KEY with
       | Some attached => Some (Ret attached, σ)
       | None =>
           match E !! exc_type x with
           | Some uri => InvocationError.new uri (exc_args x) VNone VNone σ
           | None =>
               InvocationError.new RUNTIME_ERROR (exc_args x) VNone VNone
                 {| heap := heap σ;
                    log := log σ ++ [LogNoUriRegistered (qualname (exc_type x)) RUNTIME_ERROR] |}
           end
       end.
Proof.
  intros Hx. unfold exception_to_invocation_error.
  rewrite (bind_ret _ _ _ _ _ (get_exc_some _ _ _ Hx)).
  destruct (isinstance x InvocationError.cls); [done|].
  destruct (exc_dict x !! ATTACHED_ERR_KEY); [done|].
  unfold get_exception_uri. destruct (E !! exc_type x) as [uri|].
  - by erewrite bind_ret by (by apply try_except_ret).
  - erewrite bind_ret; [done|].
    erewrite try_except_caught; [done|done|apply KeyError_is_LookupError].
Qed.

Lemma InvocationError_new_returns_new uri args σ rs :
  returns_new (InvocationError.new uri args VNone VNone
                 {| heap := heap σ; log := log σ ++ rs |})
              σ rs (InvocationError_of uri args).
Proof.
  exists (fresh (dom (heap σ))). split; [apply alloc_fresh|].
  by rewrite InvocationError_new_eq, InvocationError_init_positional.
Qed.

Lemma InvocationError_new_returns_new_quiet uri args σ :
  returns_new (InvocationError.new uri args VNone VNone σ) σ [] (InvocationError_of uri args).
Proof.
  pose proof (InvocationError_new_returns_new uri args σ []) as Hnew.
  rewrite app_nil_r in Hnew. by destruct σ.
Qed.

(** C1: [exception_to_invocation_error(x)] decides in this order: an
    [InvocationError] is returned itself, the same object, with no effect;
    otherwise a value attached under the side-channel key is returned,
    whether or not the type of [x] is registered; otherwise a new
    [InvocationError] is built from the URI registered for the type of [x];
    otherwise a new one is built from the generic runtime-error URI, and the
    fallback is logged. *)
Theorem exception_to_invocation_error_priority
    (RUNTIME_ERROR : URI) (EXC_URI_MAP : gmap PyClass URI)
    (σ : Store) (exc : loc) (x : ExcObj) :
  heap σ !! exc = Some (OExc x) →
  let r := exception_to_invocation_error RUNTIME_ERROR EXC_URI_MAP exc σ in
  match isinstance x InvocationError.cls,
        exc_dict x !! ATTACHED_ERR_KEY,
        EXC_URI_MAP !! exc_type x with
  | true, _, _ => r = Some (Ret (VObj exc), σ)
  | false, Some attached, _ => r = Some (Ret attached, σ)
  | false, None, Some uri =>
      returns_new r σ [] (InvocationError_of uri (exc_args x))
  | false, None, None =>
      returns_new r σ [LogNoUriRegistered (qualname (exc_type x)) RUNTIME_ERROR]
                  (InvocationError_of RUNTIME_ERROR (exc_args x))
  end.
Proof.
  intros Hx r. subst r. rewrite (exception_to_invocation_error_unfold _ _ _ _ _ Hx).
  destruct (isinstance x InvocationError.cls); [done|].
  destruct (exc_dict x !! ATTACHED_ERR_KEY); [done|].
  destruct (EXC_URI_MAP !! exc_type x) as [uri|].
  - apply InvocationError_new_returns_new_quiet.
  - apply InvocationError_new_returns_new.
Qed.

Lemma exception_to_invocation_error_priority_witness :
  heap (store_of (OExc ValueError_attached)) !! 1%positive = Some (OExc ValueError_attached) ∧
  exception_to_invocation_error
    "wamp.error.runtime_error" {[ ValueError := "com.example.value_error" ]} 1%positive
    (store_of (OExc ValueError_attached))
  = Some (Ret (VObj 2%positive), store_of (OExc ValueError_attached)).
Proof.
  split; [reflexivity|].
  exact (exception_to_invocation_error_priority
           "wamp.error.runtime_error" {[ ValueError := "com.example.value_error" ]}
           (store_of (OExc ValueError_attached)) 1%positive ValueError_attached eq_refl).
Defined.

(** C4, counterexample: for [ValueError()], which has no positional
    argument, the args of the result are [None], not an empty sequence. *)
Lemma generic_fallback_args_counterexample :
  ¬ generic_fallback_args_as_stated
      "wamp.error.runtime_error" ∅ (store_of (OExc (ValueError_of []))) 1%positive
      (ValueError_of []).
Proof.
  intros Hclaim.
  destruct Hclaim as (l & σ' & e & args & kwargs & details & Hr & Hl & Hs & Hargs);
    try reflexivity.
  vm_compute in Hr. injection Hr as <- <-.
  vm_compute in Hl. injection Hl as <-.
  cbn in Hs. injection Hs as <- <- <-. discriminate Hargs.
Qed.

(** C4, amended: for an exception [x] that is not an [InvocationError], has
    nothing attached and whose type is not registered, the result is a new
    [InvocationError] whose URI is the generic runtime-error URI and whose
    args are the list of the positional arguments of [x] when it has some,
    and [None] when it has none; its kwargs and details are [None]. *)
Theorem generic_fallback_args
    (RUNTIME_ERROR : URI) (EXC_URI_MAP : gmap PyClass URI)
    (σ : Store) (exc : loc) (x : ExcObj) :
  heap σ !! exc = Some (OExc x) →
  isinstance x InvocationError.cls = false →
  exc_dict x !! ATTACHED_ERR_KEY = None →
  EXC_URI_MAP !! exc_type x = None →
  ∃ l σ' e,
    exception_to_invocation_error RUNTIME_ERROR EXC_URI_MAP exc σ
      = Some (Ret (VObj l), σ') ∧
    heap σ !! l = None ∧
    heap σ' !! l = Some (OExc e) ∧
    isinstance e InvocationError.cls = true ∧
    exc_slots e = InvocationErrorSlots
                    RUNTIME_ERROR
                    (match exc_args x with [] => VNone | _ => VList (exc_args x) end)
                    VNone VNone.
Proof.
  intros Hx Hinst Hattr Hreg.
  rewrite (exception_to_invocation_error_unfold _ _ _ _ _ Hx), Hinst, Hattr, Hreg.
  destruct (InvocationError_new_returns_new
              RUNTIME_ERROR (exc_args x) σ
              [LogNoUriRegistered (qualname (exc_type x)) RUNTIME_ERROR])
    as (l & Hfresh & ->).
  eexists l, _, _. split; [reflexivity|]. split; [exact Hfresh|].
  split; [apply lookup_insert_eq|]. by split.
Qed.

Lemma generic_fallback_args_witness :
  heap (store_of (OExc (ValueError_of [VInt 1; VStr "bad"]))) !! 1%positive
    = Some (OExc (ValueError_of [VInt 1; VStr "bad"])) ∧
  isinstance (ValueError_of [VInt 1; VStr "bad"]) InvocationError.cls = false ∧
  exc_dict (ValueError_of [VInt 1; VStr "bad"]) !! ATTACHED_ERR_KEY = None ∧
  (∅ : gmap PyClass URI) !! exc_type (ValueError_of [VInt 1; VStr "bad"]) = None ∧
  ∃ l σ' e,
    exception_to_invocation_error
      "wamp.error.runtime_error" ∅ 1%positive
      (store_of (OExc (ValueError_of [VInt 1; VStr "bad"])))
      = Some (Ret (VObj l), σ') ∧
    heap (store_of (OExc (ValueError_of [VInt 1; VStr "bad"]))) !! l = None ∧
    heap σ' !! l = Some (OExc e) ∧
    isinstance e InvocationError.cls = true ∧
    exc_slots e = InvocationErrorSlots "wamp.error.runtime_error"
                                       (VList [VInt 1; VStr "bad"]) VNone VNone.
Proof.
  repeat (split; [reflexivity|]).
  apply (generic_fallback_args
           "wamp.error.runtime_error" ∅
           (store_of (OExc (ValueError_of [VInt 1; VStr "bad"]))) 1%positive
           (ValueError_of [VInt 1; VStr "bad"]));
    reflexivity.
Defined.

(** ** Attaching an [InvocationError] *)

Lemma set_invocation_error_attach σ exc x err :
  heap σ !! exc = Some (OExc x) →
  isinstance x InvocationError.cls = false →
  set_invocation_error exc err σ
  = Some (Ret (), {| heap := <[exc := OExc (with_attr x ATTACHED_ERR_KEY (VObj err))]> (heap σ);
                     log := log σ |}).
Proof.
  intros Hx Hinst. unfold set_invocation_error.
  rewrite (bind_ret _ _ _ _ _ (get_exc_some _ _ _ Hx)). by rewrite Hinst.
Qed.

(** C5: after [set_invocation_error(x, e)] on an [x] that is not an
    [InvocationError], [exception_to_invocation_error(x)] returns [e], the
    same object, with no further effect; the attachment leaves the type,
    the positional arguments, the slots and every other attribute of [x] as
    they were, and touches no other object. *)
Theorem attached_error_is_returned
    (RUNTIME_ERROR : URI) (EXC_URI_MAP : gmap PyClass URI)
    (σ : Store) (exc err : loc) (x : ExcObj) :
  heap σ !! exc = Some (OExc x) →
  isinstance x InvocationError.cls = false →
  ∃ σ' x',
    set_invocation_error exc err σ = Some (Ret (), σ') ∧
    exception_to_invocation_error RUNTIME_ERROR EXC_URI_MAP exc σ'
      = Some (Ret (VObj err), σ') ∧
    heap σ' !! exc = Some (OExc x') ∧
    exc_type x' = exc_type x ∧
    exc_args x' = exc_args x ∧
    exc_slots x' = exc_slots x ∧
    (∀ name, name ≠ ATTACHED_ERR_KEY → exc_dict x' !! name = exc_dict x !! name) ∧
    (∀ l, l ≠ exc → heap σ' !! l = heap σ !! l) ∧
    log σ' = log σ.
Proof.
  intros Hx Hinst.
  eexists _, (with_attr x ATTACHED_ERR_KEY (VObj err)).
  split; [by apply set_invocation_error_attach|].
  assert (Hx' : ∀ lg, heap {| heap := <[exc := OExc (with_attr x ATTACHED_ERR_KEY (VObj err))]>
                                        (heap σ); log := lg |} !! exc
                = Some (OExc (with_attr x ATTACHED_ERR_KEY (VObj err))))
    by (intros lg; apply lookup_insert_eq).
  split.
  { rewrite (exception_to_invocation_error_unfold _ _ _ _ _ (Hx' _)).
    change (isinstance (with_attr x ATTACHED_ERR_KEY (VObj err)) InvocationError.cls)
      with (isinstance x InvocationError.cls).
    rewrite Hinst. cbn [with_attr exc_dict]. by rewrite lookup_insert_eq. }
  split; [apply Hx'|].
  repeat split.
  - intros name Hname. cbn [with_attr exc_dict]. by rewrite lookup_insert_ne.
  - intros l Hl. cbn [heap]. by rewrite lookup_insert_ne.
Qed.

Lemma attached_error_is_returned_witness :
  heap (store_of (OExc (ValueError_of [VStr "bad"]))) !! 1%positive
    = Some (OExc (ValueError_of [VStr "bad"])) ∧
  isinstance (ValueError_of [VStr "bad"]) InvocationError.cls = false ∧
  ∃ σ' x',
    set_invocation_error 1%positive 2%positive (store_of (OExc (ValueError_of [VStr "bad"])))
      = Some (Ret (), σ') ∧
    exception_to_invocation_error "wamp.error.runtime_error" ∅ 1%positive σ'
      = Some (Ret (VObj 2%positive), σ') ∧
    heap σ' !! 1%positive = Some (OExc x') ∧
    exc_type x' = ValueError ∧
    exc_args x' = [VStr "bad"] ∧
    exc_slots x' = NoSlots ∧
    (∀ name, name ≠ ATTACHED_ERR_KEY → exc_dict x' !! name = (∅ : gmap string Value) !! name) ∧
    (∀ l, l ≠ 1%positive →
          heap σ' !! l = heap (store_of (OExc (ValueError_of [VStr "bad"]))) !! l) ∧
    log σ' = [].
Proof.
  split; [reflexivity|]. split; [reflexivity|].
  apply (attached_error_is_returned
           "wamp.error.runtime_error" ∅
           (store_of (OExc (ValueError_of [VStr "bad"]))) 1%positive 2%positive
           (ValueError_of [VStr "bad"]));
    reflexivity.
Defined.

Lemma unwinding_ret {A} (done : M ()) (m : M A) σ a σ' :
  m σ = Some (Ret a, σ') → unwinding done m σ = Some (Ret a, σ').
Proof. intros Hm. unfold unwinding. by rewrite Hm. Qed.

(** Reading one of the four fields of an [InvocationError]. *)
Lemma exc_getattr_slot σ other o uri args kwargs details name :
  heap σ !! other = Some (OExc o) →
  exc_slots o = InvocationErrorSlots uri args kwargs details →
  name ∈ ["uri"; "args"; "kwargs"; "details"] →
  exc_getattr other name σ
  = Some (Ret (if String.eqb name "uri" then VStr uri
               else if String.eqb name "args" then args
               else if String.eqb name "kwargs" then kwargs
               else details), σ).
Proof.
  intros Ho Hslots Hname. unfold exc_getattr.
  rewrite (bind_ret _ _ _ _ _ (get_exc_some _ _ _ Ho)), Hslots.
  repeat (apply elem_of_cons in Hname as [->|Hname]; [reflexivity|]).
  by apply elem_of_nil in Hname.
Qed.

Lemma set_invocation_error_overwrite σ exc err x o uri args kwargs details :
  heap σ !! exc = Some (OExc x) →
  isinstance x InvocationError.cls = true →
  heap σ !! err = Some (OExc o) →
  exc_slots o = InvocationErrorSlots uri args kwargs details →
  set_invocation_error exc err σ
  = Some (Ret (),
          {| heap := <[exc := OExc (with_slots x (InvocationErrorSlots uri args kwargs details))]>
                       (heap σ);
             log := log σ ++ [LogOverwriting exc err] |}).
Proof.
  intros Hx Hinst Ho Hslots. unfold set_invocation_error.
  rewrite (bind_ret _ _ _ _ _ (get_exc_some _ _ _ Hx)), Hinst.
  erewrite bind_ret by reflexivity.
  unfold InvocationError._init.
  erewrite bind_ret
    by (eapply exc_getattr_slot; [exact Ho|exact Hslots|set_solver]).
  do 3 (erewrite bind_ret
          by (eapply unwinding_ret, exc_getattr_slot; [exact Ho|exact Hslots|set_solver])).
  cbn [String.eqb Ascii.eqb Bool.eqb].
  unfold InvocationError.assigned.
  erewrite bind_ret by (by apply get_exc_some).
  by destruct (exc_slots x).
Qed.

(** C6: [set_invocation_error(x, e1)] followed by
    [set_invocation_error(x, e2)] on an [InvocationError] [x] both succeed
    and leave, at the location of [x], an object of the type of [x] whose
    four slots are those of [e2]; no other object changes.  [e1] and [e2]
    may alias [x]. *)
Theorem overwritten_in_place
    (σ : Store) (exc e1 e2 : loc) (x o1 o2 : ExcObj)
    (uri1 uri2 : URI) (args1 kwargs1 details1 args2 kwargs2 details2 : Value) :
  heap σ !! exc = Some (OExc x) →
  isinstance x InvocationError.cls = true →
  heap σ !! e1 = Some (OExc o1) →
  exc_slots o1 = InvocationErrorSlots uri1 args1 kwargs1 details1 →
  heap σ !! e2 = Some (OExc o2) →
  exc_slots o2 = InvocationErrorSlots uri2 args2 kwargs2 details2 →
  ∃ σ1 σ2 x' o2',
    set_invocation_error exc e1 σ = Some (Ret (), σ1) ∧
    set_invocation_error exc e2 σ1 = Some (Ret (), σ2) ∧
    heap σ2 !! exc = Some (OExc x') ∧
    heap σ2 !! e2 = Some (OExc o2') ∧
    exc_slots x' = exc_slots o2' ∧
    (e2 ≠ exc → exc_slots x' = InvocationErrorSlots uri2 args2 kwargs2 details2) ∧
    exc_type x' = exc_type x ∧
    exc_args x' = exc_args x ∧
    exc_dict x' = exc_dict x ∧
    (∀ l, l ≠ exc → heap σ2 !! l = heap σ !! l).
Proof.
  intros Hx Hinst He1 Hs1 He2 Hs2.
  pose proof (set_invocation_error_overwrite _ _ _ _ _ _ _ _ _ Hx Hinst He1 Hs1) as Hset1.
  set (x1 := with_slots x (InvocationErrorSlots uri1 args1 kwargs1 details1)) in *.
  set (σ1 := {| heap := <[exc := OExc x1]> (heap σ);
                log := log σ ++ [LogOverwriting exc e1] |}) in *.
  assert (Hx1 : heap σ1 !! exc = Some (OExc x1)) by apply lookup_insert_eq.
  assert (∃ o uri args kwargs details,
            heap σ1 !! e2 = Some (OExc o) ∧
            exc_slots o = InvocationErrorSlots uri args kwargs details ∧
            (e2 ≠ exc → InvocationErrorSlots uri args kwargs details
                        = InvocationErrorSlots uri2 args2 kwargs2 details2))
    as (o & uri & args & kwargs & details & Ho & Hso & Hne).
  { destruct (decide (e2 = exc)) as [->|Hne].
    - exists x1, uri1, args1, kwargs1, details1.
      split; [exact Hx1|]. split; [reflexivity|]. intros Hne. by destruct Hne.
    - exists o2, uri2, args2, kwargs2, details2.
      split; [|done]. cbn [σ1 heap]. by rewrite lookup_insert_ne. }
  pose proof (set_invocation_error_overwrite _ _ _ _ _ _ _ _ _ Hx1 Hinst Ho Hso) as Hset2.
  set (x2 := with_slots x1 (InvocationErrorSlots uri args kwargs details)) in *.
  eexists σ1, _, x2, (if decide (e2 = exc) then x2 else o2).
  split; [exact Hset1|]. split; [exact Hset2|].
  split; [apply lookup_insert_eq|].
  split.
  { unfold σ1; cbn [heap]. destruct (decide (e2 = exc)) as [->|Hne'].
    - apply lookup_insert_eq.
    - by rewrite !lookup_insert_ne. }
  split.
  { destruct (decide (e2 = exc)) as [|Hne']; [done|].
    cbn [x2 with_slots exc_slots]. by rewrite Hs2, (Hne Hne'). }
  split; [intros Hne'; exact (Hne Hne')|].
  repeat split.
  intros l Hl. unfold σ1; cbn [heap]. by rewrite !lookup_insert_ne.
Qed.

Lemma overwritten_in_place_witness :
  heap three_errors !! 1%positive = Some (OExc (error_at three_errors 1)) ∧
  isinstance (error_at three_errors 1) InvocationError.cls = true ∧
  heap three_errors !! 2%positive = Some (OExc (error_at three_errors 2)) ∧
  exc_slots (error_at three_errors 2)
    = InvocationErrorSlots "com.example.second" (VList [VInt 1]) VNone VNone ∧
  heap three_errors !! 3%positive = Some (OExc (error_at three_errors 3)) ∧
  exc_slots (error_at three_errors 3)
    = InvocationErrorSlots "com.example.third" (VList [VStr "a"; VInt 2]) VNone VNone ∧
  ∃ σ1 σ2 x' o2',
    set_invocation_error 1%positive 2%positive three_errors = Some (Ret (), σ1) ∧
    set_invocation_error 1%positive 3%positive σ1 = Some (Ret (), σ2) ∧
    heap σ2 !! 1%positive = Some (OExc x') ∧
    heap σ2 !! 3%positive = Some (OExc o2') ∧
    exc_slots x' = exc_slots o2' ∧
    (3%positive ≠ 1%positive →
     exc_slots x'
       = InvocationErrorSlots "com.example.third" (VList [VStr "a"; VInt 2]) VNone VNone) ∧
    exc_type x' = exc_type (error_at three_errors 1) ∧
    exc_args x' = exc_args (error_at three_errors 1) ∧
    exc_dict x' = exc_dict (error_at three_errors 1) ∧
    (∀ l, l ≠ 1%positive → heap σ2 !! l = heap three_errors !! l).
Proof.
  repeat (split; [reflexivity|]).
  apply (overwritten_in_place
           three_errors 1%positive 2%positive 3%positive
           (error_at three_errors 1) (error_at three_errors 2) (error_at three_errors 3)
           "com.example.second" "com.example.third"
           (VList [VInt 1]) VNone VNone (VList [VStr "a"; VInt 2]) VNone VNone);
    reflexivity.
Defined.

(** ** Inbound translation *)

Lemma registry_from_app R regs1 regs2 :
  registry_from R (regs1 ++ regs2) = registry_from (registry_from R regs1) regs2.
Proof. apply foldl_app. Qed.

Lemma registry_from_other R regs uri :
  uri ∉ registered_uris regs → registry_from R regs !! uri = R !! uri.
Proof.
  revert R. induction regs as [|[u c] regs IH]; intros R Hnot; [done|].
  cbn [registry_from foldl]. fold (registry_from (register_error_response u c R).2 regs).
  destruct c as [f|v].
  - cbn in Hnot. apply not_elem_of_cons in Hnot as [Hne Hnot].
    rewrite (IH _ Hnot). cbn. unfold URIMap.setitem. by rewrite lookup_insert_ne.
  - cbn in Hnot. by rewrite (IH _ Hnot).
Qed.

Lemma registry_from_last R regs1 regs2 uri f :
  as_uri uri ∉ registered_uris regs2 →
  registry_from R (regs1 ++ (uri, Callable f) :: regs2) !! as_uri uri = Some f.
Proof.
  intros Hnot. rewrite registry_from_app. cbn [registry_from foldl].
  fold (registry_from (register_error_response uri (Callable f) (registry_from R regs1)).2 regs2).
  rewrite (registry_from_other _ _ _ Hnot). cbn. unfold URIMap.setitem.
  apply lookup_insert_eq.
Qed.

Lemma msg_error_some σ message error args kwargs details :
  heap σ !! message = Some (OErrorMsg error args kwargs details) →
  msg_error message σ = Some (Ret error, σ).
Proof. intros Hm. unfold msg_error. by rewrite Hm. Qed.

Lemma error_to_exception_unfold R σ message error args kwargs details :
  heap σ !! message = Some (OErrorMsg error args kwargs details) →
  error_to_exception R message σ =
  match @lookup URI ErrorFactory _ _ error R with
  | None => ErrorResponse.new (VObj message) σ
  | Some factory =>
      match factory message σ with
      | Some (Raise e, σ') =>
          if catches LookupError e then ErrorResponse.new (VObj message) σ'
          else Some (Raise e, σ')
      | r => r
      end
  end.
Proof.
  intros Hm. unfold error_to_exception, try_except.
  rewrite (bind_ret _ _ _ _ _ (msg_error_some _ _ _ _ _ _ Hm)).
  unfold get_exception_factory, URIMap.getitem.
  destruct (R !! error) as [factory|]; [|done].
  by erewrite bind_ret by reflexivity.
Qed.

Lemma ErrorResponse_new_eq message σ :
  ErrorResponse.new (VObj message) σ
  = Some (Ret (VObj (fresh (dom (heap σ)))),
          {| heap := <[fresh (dom (heap σ)) := ErrorResponse_of message]> (heap σ);
             log := log σ |}).
Proof. reflexivity. Qed.

(** C2: for a message whose error URI no registration ever named,
    [error_to_exception(message)] returns, without raising, a new
    [ErrorResponse] whose [message] is that very message object; the
    message itself is left as it was. *)
Theorem unregistered_error_is_wrapped
    (regs : list (string * Registrant)) (σ : Store) (message : loc)
    (error : URI) (args kwargs details : Value) :
  heap σ !! message = Some (OErrorMsg error args kwargs details) →
  error ∉ registered_uris regs →
  ∃ l σ',
    error_to_exception (registry_from ∅ regs) message σ = Some (Ret (VObj l), σ') ∧
    heap σ !! l = None ∧
    σ' = {| heap := <[l := ErrorResponse_of message]> (heap σ); log := log σ |} ∧
    heap σ' !! message = Some (OErrorMsg error args kwargs details).
Proof.
  intros Hm Hnot.
  rewrite (error_to_exception_unfold _ _ _ _ _ _ _ Hm).
  rewrite (registry_from_other _ _ _ Hnot), lookup_empty, ErrorResponse_new_eq.
  eexists _, _. split; [reflexivity|].
  pose proof (alloc_fresh (heap σ)) as Hfresh.
  split; [exact Hfresh|]. split; [reflexivity|].
  cbn [heap]. rewrite lookup_insert_ne; [done|]. congruence.
Qed.

Lemma unregistered_error_is_wrapped_witness :
  heap (message_store "com.example.unknown") !! 1%positive
    = Some (OErrorMsg "com.example.unknown" (VList [VInt 1]) (VDict []) (VDict [])) ∧
  ("com.example.unknown"
     ∉ registered_uris [("com.example.known", Callable value_error_factory)]) ∧
  ∃ l σ',
    error_to_exception
      (registry_from ∅ [("com.example.known", Callable value_error_factory)])
      1%positive (message_store "com.example.unknown")
    = Some (Ret (VObj l), σ') ∧
    heap (message_store "com.example.unknown") !! l = None ∧
    σ' = {| heap := <[l := ErrorResponse_of 1%positive]>
                      (heap (message_store "com.example.unknown"));
            log := log (message_store "com.example.unknown") |} ∧
    heap σ' !! 1%positive
      = Some (OErrorMsg "com.example.unknown" (VList [VInt 1]) (VDict []) (VDict [])).
Proof.
  assert (Hnot : "com.example.unknown"
                 ∉ registered_uris [("com.example.known", Callable value_error_factory)])
    by (apply (bool_decide_unpack _); vm_compute; exact I).
  split; [reflexivity|]. split; [exact Hnot|].
  exact (unregistered_error_is_wrapped
           [("com.example.known", Callable value_error_factory)]
           (message_store "com.example.unknown") 1%positive
           "com.example.unknown" (VList [VInt 1]) (VDict []) (VDict [])
           eq_refl Hnot).
Defined.

(** C3: when the latest registration of the URI [u] through
    [register_error_response(u)] is the factory [f], then for a message
    whose error is [u], [error_to_exception(message)] returns what
    [f(message)] returns, with the effects of that call and no other. *)
Theorem registered_factory_is_invoked
    (regs1 regs2 : list (string * Registrant)) (uri : string) (f : ErrorFactory)
    (σ σ' : Store) (message : loc) (args kwargs details v : Value) :
  heap σ !! message = Some (OErrorMsg (as_uri uri) args kwargs details) →
  as_uri uri ∉ registered_uris regs2 →
  f message σ = Some (Ret v, σ') →
  error_to_exception (registry_from ∅ (regs1 ++ (uri, Callable f) :: regs2)) message σ
  = Some (Ret v, σ').
Proof.
  intros Hm Hnot Hf.
  rewrite (error_to_exception_unfold _ _ _ _ _ _ _ Hm).
  by rewrite (registry_from_last _ _ _ _ _ Hnot), Hf.
Qed.

Lemma registered_factory_is_invoked_witness :
  heap (message_store "com.example.known") !! 1%positive
    = Some (OErrorMsg (as_uri "com.example.known") (VList [VInt 1]) (VDict []) (VDict [])) ∧
  (as_uri "com.example.known"
     ∉ registered_uris [("com.example.other", Callable failing_factory)]) ∧
  value_error_factory 1%positive (message_store "com.example.known")
    = Some (Ret (VObj 2%positive),
            {| heap := <[2%positive := OExc (ValueError_of [VObj 1%positive])]>
                         (heap (message_store "com.example.known"));
               log := [] |}) ∧
  error_to_exception
    (registry_from ∅ ([("com.example.known", Callable failing_factory)]
                      ++ ("com.example.known", Callable value_error_factory)
                      :: [("com.example.other", Callable failing_factory)]))
    1%positive (message_store "com.example.known")
  = Some (Ret (VObj 2%positive),
          {| heap := <[2%positive := OExc (ValueError_of [VObj 1%positive])]>
                       (heap (message_store "com.example.known"));
             log := [] |}).
Proof.
  assert (Hnot : as_uri "com.example.known"
                 ∉ registered_uris [("com.example.other", Callable failing_factory)])
    by (apply (bool_decide_unpack _); vm_compute; exact I).
  split; [reflexivity|]. split; [exact Hnot|]. split; [reflexivity|].
  exact (registered_factory_is_invoked
           [("com.example.known", Callable failing_factory)]
           [("com.example.other", Callable failing_factory)]
           "com.example.known" value_error_factory
           (message_store "com.example.known") _ 1%positive
           (VList [VInt 1]) (VDict []) (VDict []) (VObj 2%positive)
           eq_refl Hnot eq_refl).
Defined.

(** C9: when the factory registered for the error URI of a message raises,
    a [LookupError] (or an instance of a subclass) does not leave
    [error_to_exception]: a new [ErrorResponse] whose [message] is that
    message is returned instead, in the store the factory left; any other
    exception propagates to the caller unchanged. *)
Theorem factory_lookup_error_is_swallowed
    (ERR_RESP_MAP : URIMap.t ErrorFactory) (f : ErrorFactory)
    (σ σ' : Store) (message : loc) (error : URI) (args kwargs details : Value)
    (e : Raised) :
  heap σ !! message = Some (OErrorMsg error args kwargs details) →
  ERR_RESP_MAP !! error = Some f →
  f message σ = Some (Raise e, σ') →
  (catches LookupError e = true →
   ∃ l, heap σ' !! l = None ∧
        error_to_exception ERR_RESP_MAP message σ
        = Some (Ret (VObj l),
                {| heap := <[l := ErrorResponse_of message]> (heap σ'); log := log σ' |})) ∧
  (catches LookupError e = false →
   error_to_exception ERR_RESP_MAP message σ = Some (Raise e, σ')).
Proof.
  intros Hm Hreg Hf.
  rewrite (error_to_exception_unfold _ _ _ _ _ _ _ Hm), Hreg, Hf.
  split; intros ->; [|done].
  exists (fresh (dom (heap σ'))). split; [apply alloc_fresh|apply ErrorResponse_new_eq].
Qed.

Lemma factory_lookup_error_is_swallowed_witness :
  heap (message_store "com.example.known") !! 1%positive
    = Some (OErrorMsg "com.example.known" (VList [VInt 1]) (VDict []) (VDict [])) ∧
  ({[ "com.example.known" := key_error_factory ]} : URIMap.t ErrorFactory)
    !! "com.example.known" = Some key_error_factory ∧
  key_error_factory 1%positive (message_store "com.example.known")
    = Some (Raise {| raised_type := KeyError; raised_args := [VStr "missing"] |},
            message_store "com.example.known") ∧
  (catches LookupError {| raised_type := KeyError; raised_args := [VStr "missing"] |} = true →
   ∃ l, heap (message_store "com.example.known") !! l = None ∧
        error_to_exception {[ "com.example.known" := key_error_factory ]} 1%positive
                           (message_store "com.example.known")
        = Some (Ret (VObj l),
                {| heap := <[l := ErrorResponse_of 1%positive]>
                             (heap (message_store "com.example.known"));
                   log := log (message_store "com.example.known") |})) ∧
  (catches LookupError {| raised_type := KeyError; raised_args := [VStr "missing"] |} = false →
   error_to_exception {[ "com.example.known" := key_error_factory ]} 1%positive
                      (message_store "com.example.known")
   = Some (Raise {| raised_type := KeyError; raised_args := [VStr "missing"] |},
           message_store "com.example.known")).
Proof.
  repeat (split; [reflexivity|]).
  exact (factory_lookup_error_is_swallowed
           {[ "com.example.known" := key_error_factory ]} key_error_factory
           (message_store "com.example.known") (message_store "com.example.known")
           1%positive "com.example.known" (VList [VInt 1]) (VDict []) (VDict [])
           {| raised_type := KeyError; raised_args := [VStr "missing"] |}
           eq_refl eq_refl eq_refl).
Defined.

(** * Further properties *)

(** ** Outbound translation *)

Lemma fresh_not_live (h : gmap loc Obj) l o : h !! l = Some o → l ≠ fresh (dom h).
Proof. intros Hl ->. by rewrite alloc_fresh in Hl. Qed.

(** What a translation that builds a new [InvocationError] returns. *)
Lemma exception_to_invocation_error_builds RUNTIME_ERROR E σ exc x :
  heap σ !! exc = Some (OExc x) →
  isinstance x InvocationError.cls = false →
  exc_dict x !! ATTACHED_ERR_KEY = None →
  ∃ uri rs,
    uri = default RUNTIME_ERROR (E !! exc_type x) ∧
    exception_to_invocation_error RUNTIME_ERROR E exc σ
    = Some (Ret (VObj (fresh (dom (heap σ)))),
            {| heap := <[fresh (dom (heap σ)) := InvocationError_of uri (exc_args x)]> (heap σ);
               log := log σ ++ rs |}).
Proof.
  intros Hx Hinst Hattr.
  rewrite (exception_to_invocation_error_unfold _ _ _ _ _ Hx), Hinst, Hattr.
  destruct (E !! exc_type x) as [uri|]; cbn [default].
  - exists uri, []. split; [done|].
    rewrite InvocationError_new_eq, InvocationError_init_positional. by rewrite app_nil_r.
  - eexists RUNTIME_ERROR, _. split; [done|].
    by rewrite InvocationError_new_eq, InvocationError_init_positional.
Qed.

(** X1: [exception_to_invocation_error] returns for every exception, and
    leaves every object that was live as it was: in particular it records
    nothing on the exception it translates. *)
Theorem translation_preserves_live_objects
    (RUNTIME_ERROR : URI) (EXC_URI_MAP : gmap PyClass URI)
    (σ : Store) (exc : loc) (x : ExcObj) :
  heap σ !! exc = Some (OExc x) →
  ∃ v σ',
    exception_to_invocation_error RUNTIME_ERROR EXC_URI_MAP exc σ = Some (Ret v, σ') ∧
    ∀ l o, heap σ !! l = Some o → heap σ' !! l = Some o.
Proof.
  intros Hx.
  destruct (isinstance x InvocationError.cls) eqn:Hinst;
    [|destruct (exc_dict x !! ATTACHED_ERR_KEY) as [attached|] eqn:Hattr].
  - exists (VObj exc), σ.
    by rewrite (exception_to_invocation_error_unfold _ _ _ _ _ Hx), Hinst.
  - exists attached, σ.
    by rewrite (exception_to_invocation_error_unfold _ _ _ _ _ Hx), Hinst, Hattr.
  - destruct (exception_to_invocation_error_builds RUNTIME_ERROR EXC_URI_MAP _ _ _ Hx Hinst Hattr)
      as (uri & rs & _ & ->).
    eexists _, _. split; [reflexivity|].
    intros l o Hl. cbn [heap]. rewrite lookup_insert_ne; [done|].
    intros <-. by rewrite alloc_fresh in Hl.
Qed.

Lemma translation_preserves_live_objects_witness :
  heap (store_of (OExc (ValueError_of [VStr "bad"]))) !! 1%positive
    = Some (OExc (ValueError_of [VStr "bad"])) ∧
  ∃ v σ',
    exception_to_invocation_error "wamp.error.runtime_error" ∅ 1%positive
                                  (store_of (OExc (ValueError_of [VStr "bad"])))
      = Some (Ret v, σ') ∧
    ∀ l o, heap (store_of (OExc (ValueError_of [VStr "bad"]))) !! l = Some o →
           heap σ' !! l = Some o.
Proof.
  split; [reflexivity|].
  exact (translation_preserves_live_objects
           "wamp.error.runtime_error" ∅ (store_of (OExc (ValueError_of [VStr "bad"])))
           1%positive (ValueError_of [VStr "bad"]) eq_refl).
Defined.

(** X2: translating is idempotent.  When whatever is attached to [x] is an
    [InvocationError] of the heap, the result of
    [exception_to_invocation_error(x)] is an object that a second
    translation returns itself, without building anything. *)
Theorem translation_idempotent
    (RUNTIME_ERROR : URI) (EXC_URI_MAP : gmap PyClass URI)
    (σ : Store) (exc : loc) (x : ExcObj) :
  heap σ !! exc = Some (OExc x) →
  (∀ attached, exc_dict x !! ATTACHED_ERR_KEY = Some attached →
     ∃ e o, attached = VObj e ∧ heap σ !! e = Some (OExc o) ∧
            isinstance o InvocationError.cls = true) →
  ∃ l σ',
    exception_to_invocation_error RUNTIME_ERROR EXC_URI_MAP exc σ
      = Some (Ret (VObj l), σ') ∧
    exception_to_invocation_error RUNTIME_ERROR EXC_URI_MAP l σ'
      = Some (Ret (VObj l), σ').
Proof.
  intros Hx Hattached.
  destruct (isinstance x InvocationError.cls) eqn:Hinst;
    [|destruct (exc_dict x !! ATTACHED_ERR_KEY) as [attached|] eqn:Hattr].
  - exists exc, σ.
    by rewrite (exception_to_invocation_error_unfold _ _ _ _ _ Hx), Hinst.
  - destruct (Hattached attached eq_refl) as (e & o & -> & He & Ho).
    exists e, σ. split.
    + by rewrite (exception_to_invocation_error_unfold _ _ _ _ _ Hx), Hinst, Hattr.
    + by rewrite (exception_to_invocation_error_unfold _ _ _ _ _ He), Ho.
  - destruct (exception_to_invocation_error_builds RUNTIME_ERROR EXC_URI_MAP _ _ _ Hx Hinst Hattr)
      as (uri & rs & _ & ->).
    eexists _, _. split; [reflexivity|].
    erewrite exception_to_invocation_error_unfold by apply lookup_insert_eq.
    reflexivity.
Qed.

Lemma translation_idempotent_witness :
  heap (store_of (OExc (ValueError_of [VStr "bad"]))) !! 1%positive
    = Some (OExc (ValueError_of [VStr "bad"])) ∧
  (∀ attached, exc_dict (ValueError_of [VStr "bad"]) !! ATTACHED_ERR_KEY = Some attached →
     ∃ e o, attached = VObj e ∧
            heap (store_of (OExc (ValueError_of [VStr "bad"]))) !! e = Some (OExc o) ∧
            isinstance o InvocationError.cls = true) ∧
  ∃ l σ',
    exception_to_invocation_error "wamp.error.runtime_error" ∅ 1%positive
                                  (store_of (OExc (ValueError_of [VStr "bad"])))
      = Some (Ret (VObj l), σ') ∧
    exception_to_invocation_error "wamp.error.runtime_error" ∅ l σ'
      = Some (Ret (VObj l), σ').
Proof.
  assert (Hnone : ∀ attached,
            exc_dict (ValueError_of [VStr "bad"]) !! ATTACHED_ERR_KEY = Some attached →
            ∃ e o, attached = VObj e ∧
                   heap (store_of (OExc (ValueError_of [VStr "bad"]))) !! e = Some (OExc o) ∧
                   isinstance o InvocationError.cls = true)
    by (intros attached Hsome; discriminate Hsome).
  split; [reflexivity|]. split; [exact Hnone|].
  exact (translation_idempotent
           "wamp.error.runtime_error" ∅ (store_of (OExc (ValueError_of [VStr "bad"])))
           1%positive (ValueError_of [VStr "bad"]) eq_refl Hnone).
Defined.

(** X3: nothing is cached.  Translating twice an exception that is not an
    [InvocationError] and has nothing attached builds two distinct objects
    with the same content. *)
Theorem translation_builds_anew
    (RUNTIME_ERROR : URI) (EXC_URI_MAP : gmap PyClass URI)
    (σ : Store) (exc : loc) (x : ExcObj) :
  heap σ !! exc = Some (OExc x) →
  isinstance x InvocationError.cls = false →
  exc_dict x !! ATTACHED_ERR_KEY = None →
  ∃ l1 σ1 l2 σ2 o,
    exception_to_invocation_error RUNTIME_ERROR EXC_URI_MAP exc σ
      = Some (Ret (VObj l1), σ1) ∧
    exception_to_invocation_error RUNTIME_ERROR EXC_URI_MAP exc σ1
      = Some (Ret (VObj l2), σ2) ∧
    l1 ≠ l2 ∧
    heap σ2 !! l1 = Some o ∧
    heap σ2 !! l2 = Some o.
Proof.
  intros Hx Hinst Hattr.
  destruct (exception_to_invocation_error_builds RUNTIME_ERROR EXC_URI_MAP _ _ _ Hx Hinst Hattr)
    as (uri & rs & Huri & Hfirst).
  set (l1 := fresh (dom (heap σ))) in *.
  set (σ1 := {| heap := <[l1 := InvocationError_of uri (exc_args x)]> (heap σ);
                log := log σ ++ rs |}) in *.
  assert (Hx1 : heap σ1 !! exc = Some (OExc x)).
  { unfold σ1; cbn [heap]. rewrite lookup_insert_ne; [done|].
    apply not_eq_sym, (fresh_not_live _ _ _ Hx). }
  destruct (exception_to_invocation_error_builds RUNTIME_ERROR EXC_URI_MAP _ _ _ Hx1 Hinst Hattr)
    as (uri' & rs' & Huri' & Hsecond).
  assert (Hl1 : heap σ1 !! l1 = Some (InvocationError_of uri (exc_args x)))
    by apply lookup_insert_eq.
  pose proof (fresh_not_live _ _ _ Hl1) as Hne.
  eexists l1, σ1, _, _, (InvocationError_of uri (exc_args x)).
  split; [exact Hfirst|]. split; [exact Hsecond|]. split; [exact Hne|].
  cbn [heap]. split.
  - by rewrite lookup_insert_ne by (by apply not_eq_sym).
  - rewrite lookup_insert_eq. by rewrite Huri', <- Huri.
Qed.

Lemma translation_builds_anew_witness :
  heap (store_of (OExc (ValueError_of [VStr "bad"]))) !! 1%positive
    = Some (OExc (ValueError_of [VStr "bad"])) ∧
  isinstance (ValueError_of [VStr "bad"]) InvocationError.cls = false ∧
  exc_dict (ValueError_of [VStr "bad"]) !! ATTACHED_ERR_KEY = None ∧
  ∃ l1 σ1 l2 σ2 o,
    exception_to_invocation_error "wamp.error.runtime_error" ∅ 1%positive
                                  (store_of (OExc (ValueError_of [VStr "bad"])))
      = Some (Ret (VObj l1), σ1) ∧
    exception_to_invocation_error "wamp.error.runtime_error" ∅ 1%positive σ1
      = Some (Ret (VObj l2), σ2) ∧
    l1 ≠ l2 ∧
    heap σ2 !! l1 = Some o ∧
    heap σ2 !! l2 = Some o.
Proof.
  repeat (split; [reflexivity|]).
  exact (translation_builds_anew
           "wamp.error.runtime_error" ∅ (store_of (OExc (ValueError_of [VStr "bad"])))
           1%positive (ValueError_of [VStr "bad"]) eq_refl eq_refl eq_refl).
Defined.

(** ** Attaching and overwriting *)

(** X4: on an exception that is not an [InvocationError], a second
    [set_invocation_error] replaces the first attachment and leaves the
    store as if it alone had been made; the translation then returns the
    second error, and no log record is emitted. *)
Theorem last_attachment_wins
    (RUNTIME_ERROR : URI) (EXC_URI_MAP : gmap PyClass URI)
    (σ : Store) (exc e1 e2 : loc) (x : ExcObj) :
  heap σ !! exc = Some (OExc x) →
  isinstance x InvocationError.cls = false →
  ∃ σ1 σ2,
    set_invocation_error exc e1 σ = Some (Ret (), σ1) ∧
    set_invocation_error exc e2 σ1 = Some (Ret (), σ2) ∧
    set_invocation_error exc e2 σ = Some (Ret (), σ2) ∧
    exception_to_invocation_error RUNTIME_ERROR EXC_URI_MAP exc σ2
      = Some (Ret (VObj e2), σ2) ∧
    log σ2 = log σ.
Proof.
  intros Hx Hinst.
  pose proof (set_invocation_error_attach σ exc x e1 Hx Hinst) as Hset1.
  set (x1 := with_attr x ATTACHED_ERR_KEY (VObj e1)) in *.
  set (σ1 := {| heap := <[exc := OExc x1]> (heap σ); log := log σ |}) in *.
  assert (Hx1 : heap σ1 !! exc = Some (OExc x1)) by apply lookup_insert_eq.
  pose proof (set_invocation_error_attach σ1 exc x1 e2 Hx1 Hinst) as Hset2.
  assert (Hsame : {| heap := <[exc := OExc (with_attr x1 ATTACHED_ERR_KEY (VObj e2))]> (heap σ1);
                     log := log σ1 |}
                  = {| heap := <[exc := OExc (with_attr x ATTACHED_ERR_KEY (VObj e2))]> (heap σ);
                       log := log σ |}).
  { unfold σ1, x1, with_attr; cbn [heap log exc_type exc_args exc_slots exc_dict].
    by rewrite !insert_insert_eq. }
  rewrite Hsame in Hset2.
  eexists σ1, _. split; [exact Hset1|]. split; [exact Hset2|].
  split; [by apply set_invocation_error_attach|]. split; [|done].
  erewrite exception_to_invocation_error_unfold by apply lookup_insert_eq.
  change (isinstance (with_attr x ATTACHED_ERR_KEY (VObj e2)) InvocationError.cls)
    with (isinstance x InvocationError.cls).
  rewrite Hinst. cbn [with_attr exc_dict]. by rewrite lookup_insert_eq.
Qed.

Lemma last_attachment_wins_witness :
  heap error_and_attachment !! 1%positive = Some (OExc (ValueError_of [VStr "bad"])) ∧
  isinstance (ValueError_of [VStr "bad"]) InvocationError.cls = false ∧
  ∃ σ1 σ2,
    set_invocation_error 1%positive 3%positive error_and_attachment = Some (Ret (), σ1) ∧
    set_invocation_error 1%positive 2%positive σ1 = Some (Ret (), σ2) ∧
    set_invocation_error 1%positive 2%positive error_and_attachment = Some (Ret (), σ2) ∧
    exception_to_invocation_error "wamp.error.runtime_error" ∅ 1%positive σ2
      = Some (Ret (VObj 2%positive), σ2) ∧
    log σ2 = log error_and_attachment.
Proof.
  split; [reflexivity|]. split; [reflexivity|].
  exact (last_attachment_wins
           "wamp.error.runtime_error" ∅ error_and_attachment 1%positive 3%positive 2%positive
           (ValueError_of [VStr "bad"]) eq_refl eq_refl).
Defined.

Lemma with_slots_same x :
  with_slots x (exc_slots x) = x.
Proof. by destruct x. Qed.

(** X5: [set_invocation_error(x, x)] on an [InvocationError] changes no
    object: it only emits the log record. *)
Theorem overwrite_with_itself
    (σ : Store) (exc : loc) (x : ExcObj) (uri : URI) (args kwargs details : Value) :
  heap σ !! exc = Some (OExc x) →
  isinstance x InvocationError.cls = true →
  exc_slots x = InvocationErrorSlots uri args kwargs details →
  set_invocation_error exc exc σ
  = Some (Ret (), {| heap := heap σ; log := log σ ++ [LogOverwriting exc exc] |}).
Proof.
  intros Hx Hinst Hslots.
  rewrite (set_invocation_error_overwrite _ _ _ _ _ _ _ _ _ Hx Hinst Hx Hslots).
  by rewrite <- Hslots, with_slots_same, insert_id.
Qed.

Lemma overwrite_with_itself_witness :
  heap three_errors !! 2%positive = Some (OExc (error_at three_errors 2)) ∧
  isinstance (error_at three_errors 2) InvocationError.cls = true ∧
  exc_slots (error_at three_errors 2)
    = InvocationErrorSlots "com.example.second" (VList [VInt 1]) VNone VNone ∧
  set_invocation_error 2%positive 2%positive three_errors
  = Some (Ret (), {| heap := heap three_errors;
                     log := log three_errors ++ [LogOverwriting 2%positive 2%positive] |}).
Proof.
  repeat (split; [reflexivity|]).
  exact (overwrite_with_itself
           three_errors 2%positive (error_at three_errors 2)
           "com.example.second" (VList [VInt 1]) VNone VNone eq_refl eq_refl eq_refl).
Defined.

(** X6: on an [InvocationError] [x], [set_invocation_error(x, e)] does not
    use the side-channel: the instance [__dict__] of [x] is as before, [e]
    is untouched, and the translation of [x] still returns [x] itself, which
    now carries the fields of [e]. *)
Theorem overwritten_error_translates_to_itself
    (RUNTIME_ERROR : URI) (EXC_URI_MAP : gmap PyClass URI)
    (σ : Store) (exc err : loc) (x o : ExcObj)
    (uri : URI) (args kwargs details : Value) :
  heap σ !! exc = Some (OExc x) →
  isinstance x InvocationError.cls = true →
  heap σ !! err = Some (OExc o) →
  exc_slots o = InvocationErrorSlots uri args kwargs details →
  ∃ σ' x',
    set_invocation_error exc err σ = Some (Ret (), σ') ∧
    exception_to_invocation_error RUNTIME_ERROR EXC_URI_MAP exc σ'
      = Some (Ret (VObj exc), σ') ∧
    heap σ' !! exc = Some (OExc x') ∧
    exc_slots x' = InvocationErrorSlots uri args kwargs details ∧
    exc_dict x' = exc_dict x ∧
    (err ≠ exc → heap σ' !! err = Some (OExc o)).
Proof.
  intros Hx Hinst Ho Hslots.
  eexists _, (with_slots x (InvocationErrorSlots uri args kwargs details)).
  split; [by apply (set_invocation_error_overwrite _ _ _ _ _ _ _ _ _ Hx Hinst Ho Hslots)|].
  split.
  { erewrite exception_to_invocation_error_unfold by apply lookup_insert_eq.
    change (isinstance (with_slots x _) InvocationError.cls)
      with (isinstance x InvocationError.cls).
    by rewrite Hinst. }
  split; [apply lookup_insert_eq|]. repeat split.
  intros Hne. cbn [heap]. by rewrite lookup_insert_ne by (by apply not_eq_sym).
Qed.

Lemma overwritten_error_translates_to_itself_witness :
  heap three_errors !! 1%positive = Some (OExc (error_at three_errors 1)) ∧
  isinstance (error_at three_errors 1) InvocationError.cls = true ∧
  heap three_errors !! 3%positive = Some (OExc (error_at three_errors 3)) ∧
  exc_slots (error_at three_errors 3)
    = InvocationErrorSlots "com.example.third" (VList [VStr "a"; VInt 2]) VNone VNone ∧
  ∃ σ' x',
    set_invocation_error 1%positive 3%positive three_errors = Some (Ret (), σ') ∧
    exception_to_invocation_error "wamp.error.runtime_error" ∅ 1%positive σ'
      = Some (Ret (VObj 1%positive), σ') ∧
    heap σ' !! 1%positive = Some (OExc x') ∧
    exc_slots x'
      = InvocationErrorSlots "com.example.third" (VList [VStr "a"; VInt 2]) VNone VNone ∧
    exc_dict x' = exc_dict (error_at three_errors 1) ∧
    (3%positive ≠ 1%positive → heap σ' !! 3%positive = Some (OExc (error_at three_errors 3))).
Proof.
  repeat (split; [reflexivity|]).
  exact (overwritten_error_translates_to_itself
           "wamp.error.runtime_error" ∅ three_errors 1%positive 3%positive
           (error_at three_errors 1) (error_at three_errors 3)
           "com.example.third" (VList [VStr "a"; VInt 2]) VNone VNone
           eq_refl eq_refl eq_refl eq_refl).
Defined.

(** ** The fields of an [InvocationError] stay [None] or non-empty *)

Lemma heap_ok_insert h l e :
  heap_ok h → slots_ok (exc_slots e) = true → heap_ok (<[l := OExc e]> h).
Proof.
  intros Hok He l' e' Hl'. apply lookup_insert_Some in Hl' as [[_ Heq]|[_ Hl']].
  - by injection Heq as <-.
  - by apply (Hok l').
Qed.


(** X7: [set_invocation_error(x, e)] with an [InvocationError] [e] keeps
    the invariant of the constructor.  When every [InvocationError] of the
    heap has [None] or a non-empty container in [args], [kwargs] and
    [details], this still holds after the call, whether it attaches [e] to
    [x] or overwrites [x] with the fields of [e]. *)
Theorem set_invocation_error_keeps_fields
    (σ σ' : Store) (exc err : loc) (r : Outcome ()) (o : ExcObj)
    (uri : URI) (args kwargs details : Value) :
  heap_ok (heap σ) →
  heap σ !! err = Some (OExc o) →
  exc_slots o = InvocationErrorSlots uri args kwargs details →
  set_invocation_error exc err σ = Some (r, σ') →
  heap_ok (heap σ').
Proof.
  intros Hok Ho Hslots Hrun.
  destruct (heap σ !! exc) as [[|x]|] eqn:Hx;
    try (unfold set_invocation_error, mbind, M_bind, get_exc in Hrun;
         rewrite Hx in Hrun; discriminate Hrun).
  destruct (isinstance x InvocationError.cls) eqn:Hinst.
  - rewrite (set_invocation_error_overwrite _ _ _ _ _ _ _ _ _ Hx Hinst Ho Hslots) in Hrun.
    injection Hrun as _ <-. cbn [heap].
    apply heap_ok_insert; [exact Hok|]. cbn [with_slots exc_slots].
    rewrite <- Hslots. exact (Hok _ _ Ho).
  - rewrite (set_invocation_error_attach _ _ _ _ Hx Hinst) in Hrun.
    injection Hrun as _ <-. cbn [heap].
    apply heap_ok_insert; [exact Hok|exact (Hok _ _ Hx)].
Qed.

Lemma heap_ok_three_errors : heap_ok (heap three_errors).
Proof.
  unfold three_errors; cbn [heap].
  repeat (apply heap_ok_insert; [|reflexivity]).
  intros l e Hl. by rewrite lookup_empty in Hl.
Qed.

Lemma set_invocation_error_keeps_fields_witness :
  heap_ok (heap three_errors) ∧
  heap three_errors !! 3%positive = Some (OExc (error_at three_errors 3)) ∧
  exc_slots (error_at three_errors 3)
    = InvocationErrorSlots "com.example.third" (VList [VStr "a"; VInt 2]) VNone VNone ∧
  set_invocation_error 1%positive 3%positive three_errors
  = Some (Ret (),
          {| heap := <[1%positive :=
                         OExc (with_slots (error_at three_errors 1)
                                          (exc_slots (error_at three_errors 3)))]>
                       (heap three_errors);
             log := [LogOverwriting 1%positive 3%positive] |}) ∧
  heap_ok (<[1%positive := OExc (with_slots (error_at three_errors 1)
                                            (exc_slots (error_at three_errors 3)))]>
             (heap three_errors)).
Proof.
  split; [exact heap_ok_three_errors|]. do 3 (split; [reflexivity|]).
  exact (set_invocation_error_keeps_fields
           three_errors _ 1%positive 3%positive (Ret ()) (error_at three_errors 3)
           "com.example.third" (VList [VStr "a"; VInt 2]) VNone VNone
           heap_ok_three_errors eq_refl eq_refl eq_refl).
Defined.




Lemma py_or_None_idempotent v : py_or (py_or v VNone) VNone = py_or v VNone.
Proof. unfold py_or. destruct (truthy v) eqn:Hv; [by rewrite Hv|done]. Qed.

(** X9: the normalisation of the constructor is idempotent.  Building an
    [InvocationError] again from the fields of one the constructor built
    (its [uri], its [args] or the empty tuple, its [kwargs] and [details])
    gives the same fields. *)
Theorem InvocationError_rebuilt_from_fields
    (uri : string) (args : list Value) (kwargs details : Value) :
  ∃ u a k d,
    InvocationError.__init__ uri args kwargs details = InvocationErrorSlots u a k d ∧
    InvocationError.__init__ u (positional a) k d = InvocationErrorSlots u a k d.
Proof.
  eexists _, _, _, _. split; [reflexivity|].
  unfold InvocationError.__init__. rewrite !py_or_None_idempotent.
  by destruct args.
Qed.

(** ** Inbound translation *)

(** X10: no [LookupError] leaves [error_to_exception].  What it raises was
    raised by the factory registered for the error URI of the message, and
    is not an instance of [LookupError]. *)
Theorem error_to_exception_raises_no_LookupError
    (ERR_RESP_MAP : URIMap.t ErrorFactory) (σ σ' : Store) (message : loc) (e : Raised) :
  error_to_exception ERR_RESP_MAP message σ = Some (Raise e, σ') →
  catches LookupError e = false ∧
  ∃ error f,
    msg_error message σ = Some (Ret error, σ) ∧
    ERR_RESP_MAP !! error = Some f ∧
    f message σ = Some (Raise e, σ').
Proof.
  intros Hrun.
  destruct (heap σ !! message) as [[error args kwargs details|x]|] eqn:Hm;
    try (unfold error_to_exception, try_except, mbind, M_bind, msg_error in Hrun;
         rewrite Hm in Hrun; discriminate Hrun).
  rewrite (error_to_exception_unfold _ _ _ _ _ _ _ Hm) in Hrun.
  destruct (ERR_RESP_MAP !! error) as [f|] eqn:Hreg;
    [|rewrite ErrorResponse_new_eq in Hrun; discriminate Hrun].
  destruct (f message σ) as [[[v|e0] σ0]|] eqn:Hf; try discriminate Hrun.
  destruct (catches LookupError e0) eqn:Hcatch;
    [rewrite ErrorResponse_new_eq in Hrun; discriminate Hrun|].
  injection Hrun as <- <-. split; [exact Hcatch|].
  exists error, f. by rewrite (msg_error_some _ _ _ _ _ _ Hm).
Qed.

Lemma error_to_exception_raises_no_LookupError_witness :
  error_to_exception {[ "com.example.known" := failing_factory ]} 1%positive
                     (message_store "com.example.known")
    = Some (Raise {| raised_type := ValueError; raised_args := [VStr "bad"] |},
            message_store "com.example.known") ∧
  catches LookupError {| raised_type := ValueError; raised_args := [VStr "bad"] |} = false ∧
  ∃ error f,
    msg_error 1%positive (message_store "com.example.known")
      = Some (Ret error, message_store "com.example.known") ∧
    ({[ "com.example.known" := failing_factory ]} : URIMap.t ErrorFactory) !! error = Some f ∧
    f 1%positive (message_store "com.example.known")
      = Some (Raise {| raised_type := ValueError; raised_args := [VStr "bad"] |},
              message_store "com.example.known").
Proof.
  split; [reflexivity|].
  exact (error_to_exception_raises_no_LookupError
           {[ "com.example.known" := failing_factory ]}
           (message_store "com.example.known") (message_store "com.example.known")
           1%positive {| raised_type := ValueError; raised_args := [VStr "bad"] |} eq_refl).
Defined.

(** X11: registrations for other URIs do not change how a message is
    translated, and neither does a registration that fails because its
    factory is not callable. *)
Theorem registration_of_other_uris_is_irrelevant
    (ERR_RESP_MAP : URIMap.t ErrorFactory) (regs : list (string * Registrant))
    (σ : Store) (message : loc) (error : URI) (args kwargs details : Value) :
  heap σ !! message = Some (OErrorMsg error args kwargs details) →
  error ∉ registered_uris regs →
  error_to_exception (registry_from ERR_RESP_MAP regs) message σ
  = error_to_exception ERR_RESP_MAP message σ.
Proof.
  intros Hm Hnot.
  rewrite !(error_to_exception_unfold _ _ _ _ _ _ _ Hm).
  by rewrite (registry_from_other _ _ _ Hnot).
Qed.

Lemma registration_of_other_uris_is_irrelevant_witness :
  heap (message_store "com.example.known") !! 1%positive
    = Some (OErrorMsg "com.example.known" (VList [VInt 1]) (VDict []) (VDict [])) ∧
  ("com.example.known"
     ∉ registered_uris [("com.example.other", Callable failing_factory);
                        ("com.example.known", NotCallable VNone)]) ∧
  error_to_exception
    (registry_from {[ "com.example.known" := value_error_factory ]}
                   [("com.example.other", Callable failing_factory);
                    ("com.example.known", NotCallable VNone)])
    1%positive (message_store "com.example.known")
  = error_to_exception {[ "com.example.known" := value_error_factory ]}
                       1%positive (message_store "com.example.known").
Proof.
  assert (Hnot : "com.example.known"
                 ∉ registered_uris [("com.example.other", Callable failing_factory);
                                    ("com.example.known", NotCallable VNone)])
    by (apply (bool_decide_unpack _); vm_compute; exact I).
  split; [reflexivity|]. split; [exact Hnot|].
  exact (registration_of_other_uris_is_irrelevant
           {[ "com.example.known" := value_error_factory ]}
           [("com.example.other", Callable failing_factory);
            ("com.example.known", NotCallable VNone)]
           (message_store "com.example.known") 1%positive
           "com.example.known" (VList [VInt 1]) (VDict []) (VDict [])
           eq_refl Hnot).
Defined.

(** ** From a remote error to an invocation error *)

(** X12: the error URI of a remote error does not survive the two
    translations.  The [ErrorResponse] that [error_to_exception] builds
    for an unregistered URI is translated by
    [exception_to_invocation_error] into a new [InvocationError] whose URI
    is the one registered for the class [ErrorResponse], or the generic
    runtime-error URI, and whose only argument is the message object. *)
Theorem unregistered_remote_error_becomes_generic
    (RUNTIME_ERROR : URI) (ERR_RESP_MAP : URIMap.t ErrorFactory)
    (EXC_URI_MAP : gmap PyClass URI)
    (σ : Store) (message : loc) (error : URI) (args kwargs details : Value) :
  heap σ !! message = Some (OErrorMsg error args kwargs details) →
  ERR_RESP_MAP !! error = None →
  ∃ l1 σ1 l2 σ2 e,
    error_to_exception ERR_RESP_MAP message σ = Some (Ret (VObj l1), σ1) ∧
    exception_to_invocation_error RUNTIME_ERROR EXC_URI_MAP l1 σ1
      = Some (Ret (VObj l2), σ2) ∧
    l1 ≠ l2 ∧
    heap σ2 !! l2 = Some (OExc e) ∧
    isinstance e InvocationError.cls = true ∧
    exc_slots e = InvocationErrorSlots
                    (default RUNTIME_ERROR (EXC_URI_MAP !! ErrorResponse.cls))
                    (VList [VObj message]) VNone VNone.
Proof.
  intros Hm Hreg.
  rewrite (error_to_exception_unfold _ _ _ _ _ _ _ Hm), Hreg, ErrorResponse_new_eq.
  set (l1 := fresh (dom (heap σ))).
  set (σ1 := {| heap := <[l1 := ErrorResponse_of message]> (heap σ); log := log σ |}).
  assert (Hl1 : heap σ1 !! l1 = Some (ErrorResponse_of message)) by apply lookup_insert_eq.
  destruct (exception_to_invocation_error_builds
              RUNTIME_ERROR EXC_URI_MAP σ1 l1 _ Hl1 eq_refl (lookup_empty _))
    as (uri & rs & -> & Hrun).
  eexists l1, σ1, _, _, _. split; [reflexivity|]. split; [exact Hrun|].
  split; [exact (fresh_not_live _ _ _ Hl1)|].
  split; [apply lookup_insert_eq|]. by split.
Qed.

Lemma unregistered_remote_error_becomes_generic_witness :
  heap (message_store "com.example.unknown") !! 1%positive
    = Some (OErrorMsg "com.example.unknown" (VList [VInt 1]) (VDict []) (VDict [])) ∧
  (∅ : URIMap.t ErrorFactory) !! "com.example.unknown" = None ∧
  ∃ l1 σ1 l2 σ2 e,
    error_to_exception ∅ 1%positive (message_store "com.example.unknown")
      = Some (Ret (VObj l1), σ1) ∧
    exception_to_invocation_error "wamp.error.runtime_error" ∅ l1 σ1
      = Some (Ret (VObj l2), σ2) ∧
    l1 ≠ l2 ∧
    heap σ2 !! l2 = Some (OExc e) ∧
    isinstance e InvocationError.cls = true ∧
    exc_slots e = InvocationErrorSlots "wamp.error.runtime_error"
                                       (VList [VObj 1%positive]) VNone VNone.
Proof.
  split; [reflexivity|]. split; [reflexivity|].
  exact (unregistered_remote_error_becomes_generic
           "wamp.error.runtime_error" ∅ ∅ (message_store "com.example.unknown") 1%positive
           "com.example.unknown" (VList [VInt 1]) (VDict []) (VDict []) eq_refl eq_refl).
Defined.

(** ** [ErrorResponse]: the [uri] property and the rendering *)

Lemma ErrorResponse_message_eq σ self e message :
  heap σ !! self = Some (OExc e) →
  exc_slots e = ErrorResponseSlots message →
  ErrorResponse.message self σ = Some (Ret message, σ).
Proof.
  intros Hself Hslots. unfold ErrorResponse.message.
  rewrite (bind_ret _ _ _ _ _ (get_exc_some _ _ _ Hself)). by rewrite Hslots.
Qed.

(** X13: the [ErrorResponse] that [error_to_exception] builds for an
    unregistered URI answers that URI as its [uri]: the error URI of the
    message is read back through the wrapper. *)
Theorem ErrorResponse_uri_is_message_error
    (ERR_RESP_MAP : URIMap.t ErrorFactory)
    (σ : Store) (message : loc) (error : URI) (args kwargs details : Value) :
  heap σ !! message = Some (OErrorMsg error args kwargs details) →
  ERR_RESP_MAP !! error = None →
  ∃ l σ',
    error_to_exception ERR_RESP_MAP message σ = Some (Ret (VObj l), σ') ∧
    ErrorResponse.uri l σ' = Some (Ret error, σ').
Proof.
  intros Hm Hreg.
  rewrite (error_to_exception_unfold _ _ _ _ _ _ _ Hm), Hreg, ErrorResponse_new_eq.
  eexists _, _. split; [reflexivity|].
  unfold ErrorResponse.uri.
  erewrite bind_ret
    by (eapply ErrorResponse_message_eq; [apply lookup_insert_eq|reflexivity]).
  cbn [ErrorResponse.message_attr]. apply msg_error_some with args kwargs details.
  cbn [heap]. rewrite lookup_insert_ne; [exact Hm|].
  apply not_eq_sym, (fresh_not_live _ _ _ Hm).
Qed.

Lemma ErrorResponse_uri_is_message_error_witness :
  heap (message_store "com.example.unknown") !! 1%positive
    = Some (OErrorMsg "com.example.unknown" (VList [VInt 1]) (VDict []) (VDict [])) ∧
  (∅ : URIMap.t ErrorFactory) !! "com.example.unknown" = None ∧
  ∃ l σ',
    error_to_exception ∅ 1%positive (message_store "com.example.unknown")
      = Some (Ret (VObj l), σ') ∧
    ErrorResponse.uri l σ' = Some (Ret "com.example.unknown", σ').
Proof.
  split; [reflexivity|]. split; [reflexivity|].
  exact (ErrorResponse_uri_is_message_error
           ∅ (message_store "com.example.unknown") 1%positive
           "com.example.unknown" (VList [VInt 1]) (VDict []) (VDict []) eq_refl eq_refl).
Defined.

Section ErrorResponse_rendering.
Context `{Rendering}.

Lemma msg_args_some σ message error args kwargs details :
  heap σ !! message = Some (OErrorMsg error args kwargs details) →
  msg_args message σ = Some (Ret args, σ).
Proof. intros Hm. unfold msg_args. by rewrite Hm. Qed.

Lemma msg_kwargs_some σ message error args kwargs details :
  heap σ !! message = Some (OErrorMsg error args kwargs details) →
  msg_kwargs message σ = Some (Ret kwargs, σ).
Proof. intros Hm. unfold msg_kwargs. by rewrite Hm. Qed.

Lemma ErrorResponse_str_eq σ self e message error args kwargs details :
  heap σ !! self = Some (OExc e) →
  exc_slots e = ErrorResponseSlots (VObj message) →
  heap σ !! message = Some (OErrorMsg error args kwargs details) →
  ErrorResponse.__str__ self σ =
  Some (match py_iter args with
        | Raise ex => Raise ex
        | Ret l =>
            match py_items kwargs with
            | Raise ex => Raise ex
            | Ret items =>
                let args_str := join ", " (map py_repr l) in
                let kwargs_str :=
                  join ", " (map (λ kv, kv.1 +:+ "=" +:+ py_repr kv.2) items) in
                let s := if negb (String.eqb args_str "")
                         then error +:+ " " +:+ args_str else error in
                Ret (if negb (String.eqb kwargs_str "")
                     then s +:+ " (" +:+ kwargs_str +:+ ")" else s)
            end
        end, σ).
Proof.
  intros Hself Hslots Hm. unfold ErrorResponse.__str__.
  rewrite (bind_ret _ _ _ _ _ (ErrorResponse_message_eq _ _ _ _ Hself Hslots)).
  cbn [ErrorResponse.message_attr].
  rewrite (bind_ret _ _ _ _ _ (msg_error_some _ _ _ _ _ _ Hm)).
  rewrite (bind_ret _ _ _ _ _ (msg_args_some _ _ _ _ _ _ Hm)).
  destruct (py_iter args) as [l|ex]; [|done].
  erewrite bind_ret by reflexivity.
  rewrite (bind_ret _ _ _ _ _ (msg_kwargs_some _ _ _ _ _ _ Hm)).
  destruct (py_items kwargs) as [items|ex]; [|done].
  by erewrite bind_ret by reflexivity.
Qed.
End ErrorResponse_rendering.

Section ErrorResponse_rendering_edges.
Context `{Rendering}.

(** X14: rendering an [ErrorResponse] iterates the [args] of its message
    and calls [items] on its [kwargs] without a guard.  It raises
    [TypeError] when [args] is not iterable ([None], say), and
    [AttributeError] when [args] is iterable but [kwargs] is not a dict;
    when [kwargs] is the empty dict the text is the error URI, followed by a
    space and the [repr] of the args when that text is not empty, with no
    parenthesised part. *)
Theorem ErrorResponse_str_unguarded
    (σ : Store) (self message : loc) (e : ExcObj)
    (error : URI) (args kwargs details : Value) :
  heap σ !! self = Some (OExc e) →
  exc_slots e = ErrorResponseSlots (VObj message) →
  heap σ !! message = Some (OErrorMsg error args kwargs details) →
  (iterable args = false →
   ∃ ex, ErrorResponse.__str__ self σ = Some (Raise ex, σ) ∧ raised_type ex = TypeError) ∧
  (iterable args = true → is_dict kwargs = false →
   ∃ ex, ErrorResponse.__str__ self σ = Some (Raise ex, σ) ∧
         raised_type ex = AttributeError) ∧
  (∀ l, sequence_of args = Some l → kwargs = VDict [] →
   ErrorResponse.__str__ self σ
   = Some (Ret (let args_str := join ", " (map py_repr l) in
                if negb (String.eqb args_str "")
                then error +:+ " " +:+ args_str else error), σ)).
Proof.
  intros Hself Hslots Hm.
  rewrite (ErrorResponse_str_eq _ _ _ _ _ _ _ _ Hself Hslots Hm).
  split; [|split].
  - intros Hargs. destruct args; try discriminate Hargs; by eexists.
  - intros Hargs Hkwargs.
    destruct args; try discriminate Hargs;
      destruct kwargs; try discriminate Hkwargs; by eexists.
  - intros l Hl ->. by destruct args; try discriminate Hl; injection Hl as ->.
Qed.
End ErrorResponse_rendering_edges.

Lemma ErrorResponse_str_unguarded_witness :
  heap (wrapped_message VNone VNone) !! 2%positive
    = Some (OExc (error_at (wrapped_message VNone VNone) 2)) ∧
  exc_slots (error_at (wrapped_message VNone VNone) 2)
    = ErrorResponseSlots (VObj 1%positive) ∧
  heap (wrapped_message VNone VNone) !! 1%positive
    = Some (OErrorMsg "com.example.unknown" VNone VNone (VDict [])) ∧
  (iterable VNone = false →
   ∃ ex, @ErrorResponse.__str__ example_rendering 2%positive (wrapped_message VNone VNone)
         = Some (Raise ex, wrapped_message VNone VNone) ∧
         raised_type ex = TypeError) ∧
  (iterable VNone = true → is_dict VNone = false →
   ∃ ex, @ErrorResponse.__str__ example_rendering 2%positive (wrapped_message VNone VNone)
         = Some (Raise ex, wrapped_message VNone VNone) ∧
         raised_type ex = AttributeError) ∧
  (∀ l, sequence_of VNone = Some l → VNone = VDict [] →
   @ErrorResponse.__str__ example_rendering 2%positive (wrapped_message VNone VNone)
   = Some (Ret (let args_str := join ", " (map (@py_repr example_rendering) l) in
                if negb (String.eqb args_str "")
                then "com.example.unknown" +:+ " " +:+ args_str
                else "com.example.unknown"),
           wrapped_message VNone VNone)).
Proof.
  repeat (split; [reflexivity|]).
  exact (@ErrorResponse_str_unguarded
           example_rendering (wrapped_message VNone VNone) 2%positive 1%positive
           (error_at (wrapped_message VNone VNone) 2)
           "com.example.unknown" VNone VNone (VDict []) eq_refl eq_refl eq_refl).
Defined.

(** ** [repr] of an [InvocationError] *)

Section InvocationError_repr.
Context `{Rendering}.
Variable repr_of_uri : URI → string.

(** X15: the [repr] of an [InvocationError] built by the constructor is
    the class name and, in parentheses, the [repr] of the URI, then the
    [repr] of each positional argument, then [kwargs=...] when a true
    [kwargs] was supplied and [details=...] when a true [details] was
    supplied: what the constructor turned into [None] is not shown. *)
Theorem InvocationError_repr_of_constructed
    (qualname uri : string) (args : list Value) (kwargs details : Value) :
  InvocationError.__repr__ repr_of_uri qualname
                           (InvocationError.__init__ uri args kwargs details)
  = Ret (qualname +:+ "(" +:+ repr_of_uri (as_uri uri)
           +:+ (match args with
                | [] => ""
                | _ => ", " +:+ join ", " (map py_repr args)
                end)
           +:+ (if truthy kwargs then ", kwargs=" +:+ py_repr kwargs else "")
           +:+ (if truthy details then ", details=" +:+ py_repr details else "")
           +:+ ")").
Proof.
  unfold InvocationError.__repr__, InvocationError.__init__, py_or.
  destruct (truthy kwargs) eqn:Hk, (truthy details) eqn:Hd;
    rewrite ?Hk, ?Hd; by destruct args.
Qed.
End InvocationError_repr.

(** ** [Interrupt] *)

Lemma dict_get_None d key : dict_get d key = None ↔ key ∉ d.*1.
Proof.
  induction d as [|[k v] d IH]; cbn [dict_get fmap list_fmap fst].
  - split; [intros _; apply not_elem_of_nil|done].
  - rewrite not_elem_of_cons. destruct (String.eqb_spec k key) as [->|Hne].
    + split; [discriminate|]. by intros [Hne _].
    + rewrite IH. split; [by intros Hnot; split; [apply not_eq_sym|]|by intros [_ Hnot]].
Qed.

Lemma dict_get_Some d key v :
  NoDup d.*1 → dict_get d key = Some v ↔ (key, v) ∈ d.
Proof.
  induction d as [|[k w] d IH]; cbn [dict_get fmap list_fmap fst]; intros Hnodup.
  - split; [discriminate|]. intros Hin. by apply elem_of_nil in Hin.
  - apply NoDup_cons in Hnodup as [Hk Hnodup]. rewrite elem_of_cons.
    destruct (String.eqb_spec k key) as [->|Hne].
    + split.
      * intros [= ->]. by left.
      * intros [[= ->]|Hin]; [done|].
        exfalso. apply Hk. apply list_elem_of_fmap. by exists (key, v).
    + rewrite (IH Hnodup). split; [by right|].
      intros [[= -> _]|Hin]; [done|exact Hin].
Qed.

(** X16: [cancel_mode] of an [Interrupt] built on a dict of options is the
    value the dict holds under ["mode"], and raises [KeyError] exactly when
    the dict has no such key. *)
Theorem Interrupt_cancel_mode (d : list (string * Value)) :
  NoDup d.*1 →
  (∀ v, ("mode", v) ∈ d ↔ Interrupt.cancel_mode (Interrupt.__init__ (VDict d)) = Ret v) ∧
  ("mode" ∉ d.*1 ↔
   Interrupt.cancel_mode (Interrupt.__init__ (VDict d))
   = Raise {| raised_type := KeyError; raised_args := [VStr "mode"] |}).
Proof.
  intros Hnodup.
  unfold Interrupt.cancel_mode, Interrupt.__init__; cbn [Interrupt.options py_getitem].
  split.
  - intros v. rewrite <- (dict_get_Some d "mode" v Hnodup).
    destruct (dict_get d "mode"); split; congruence.
  - rewrite <- dict_get_None. destruct (dict_get d "mode"); split; congruence.
Qed.

Lemma Interrupt_cancel_mode_witness :
  NoDup [("reason", VStr "timeout"); ("mode", VStr "kill")].*1 ∧
  (∀ v, ("mode", v) ∈ [("reason", VStr "timeout"); ("mode", VStr "kill")] ↔
        Interrupt.cancel_mode
          (Interrupt.__init__ (VDict [("reason", VStr "timeout"); ("mode", VStr "kill")]))
        = Ret v) ∧
  ("mode" ∉ [("reason", VStr "timeout"); ("mode", VStr "kill")].*1 ↔
   Interrupt.cancel_mode
     (Interrupt.__init__ (VDict [("reason", VStr "timeout"); ("mode", VStr "kill")]))
   = Raise {| raised_type := KeyError; raised_args := [VStr "mode"] |}).
Proof.
  assert (Hnodup : NoDup [("reason", VStr "timeout"); ("mode", VStr "kill")].*1)
    by (apply (bool_decide_unpack _); vm_compute; exact I).
  split; [exact Hnodup|].
  exact (Interrupt_cancel_mode [("reason", VStr "timeout"); ("mode", VStr "kill")] Hnodup).
Defined.

(** ** Building a [SubscriptionEvent] *)

(** X17: building a [SubscriptionEvent] fails only with [TypeError], and
    exactly when the args of the message are true and not iterable.
    Otherwise the event answers the client, the topic and the publication id
    it was built with; its [kwargs] is not validated: a false value becomes
    the empty dict and a true one is kept whatever it is; its [details] is
    the message's. *)
Theorem SubscriptionEvent_construction
    (client : loc) (m : msg.Event) (topic : URI) :
  if truthy (msg.args m) && negb (iterable (msg.args m))
  then ∃ e, SubscriptionEvent.__init__ client m topic = Raise e ∧
            raised_type e = TypeError
  else ∃ ev, SubscriptionEvent.__init__ client m topic = Ret ev ∧
             SubscriptionEvent.client ev = client ∧
             SubscriptionEvent.subscribed_topic ev = topic ∧
             SubscriptionEvent.publication_id ev = msg.publication_id m ∧
             SubscriptionEvent.kwargs ev
               = (if truthy (msg.kwargs m) then msg.kwargs m else VDict []) ∧
             SubscriptionEvent.details ev = msg.details m.
Proof.
  destruct m as [pid a k d]. unfold SubscriptionEvent.__init__.
  cbn [msg.args msg.kwargs msg.details msg.publication_id].
  destruct (truthy a) eqn:Ha.
  - destruct a; cbn [iterable negb andb py_tuple py_iter];
      try (eexists; split; [reflexivity|]; by repeat split);
      by eexists.
  - cbn [andb]. eexists; split; [reflexivity|]; by repeat split.
Qed.

(** ** Overwriting from an exception that is no [InvocationError] *)

Lemma bind_raise {A B} (m : M A) (k : A → M B) σ e σ' :
  m σ = Some (Raise e, σ') → (m ≫= k) σ = Some (Raise e, σ').
Proof. intros Hm. unfold mbind, M_bind. by rewrite Hm. Qed.

Lemma unwinding_raise {A} (done : M ()) (m : M A) σ e σ' r σ'' :
  m σ = Some (Raise e, σ') → done σ' = Some (r, σ'') →
  unwinding done m σ = Some (Raise e, σ'').
Proof. intros Hm Hdone. unfold unwinding. by rewrite Hm, Hdone. Qed.

(** What an [ErrorResponse] answers for the names [_init] reads. *)
Lemma exc_getattr_ErrorResponse σ err o message error margs mkwargs mdetails :
  heap σ !! err = Some (OExc o) →
  exc_slots o = ErrorResponseSlots (VObj message) →
  exc_dict o !! "kwargs" = None →
  heap σ !! message = Some (OErrorMsg error margs mkwargs mdetails) →
  exc_getattr err "uri" σ = Some (Ret (VStr error), σ) ∧
  exc_getattr err "args" σ = Some (Ret (VTuple (exc_args o)), σ) ∧
  exc_getattr err "kwargs" σ
  = Some (Raise {| raised_type := AttributeError; raised_args := [VStr "kwargs"] |}, σ).
Proof.
  intros Ho Hslots Hdict Hm. unfold exc_getattr.
  rewrite !(bind_ret _ _ _ _ _ (get_exc_some _ _ _ Ho)), Hslots, Hdict.
  cbn [String.eqb Ascii.eqb Bool.eqb]. split; [|done].
  assert (Huri : ErrorResponse.uri err σ = Some (Ret error, σ)).
  { unfold ErrorResponse.uri.
    rewrite (bind_ret _ _ _ _ _ (ErrorResponse_message_eq _ _ _ _ Ho Hslots)).
    cbn [ErrorResponse.message_attr]. exact (msg_error_some _ _ _ _ _ _ Hm). }
  by rewrite (bind_ret _ _ _ _ _ Huri).
Qed.

(** X18: [set_invocation_error(x, e)] on an [InvocationError] [x] with an
    [ErrorResponse] [e] overwrites [x] in part and then raises.  [e] answers
    [uri] (the error URI of its message) and [args] (the tuple holding the
    message), so both are stored in [x] before reading [e.kwargs] raises
    [AttributeError]; [x] keeps its [kwargs] and [details], and its [args] is
    then a tuple, outside the invariant of the constructor. *)
Theorem overwrite_from_ErrorResponse_is_partial
    (σ : Store) (exc err message : loc) (x o : ExcObj)
    (uri0 error : URI) (args0 kwargs0 details0 margs mkwargs mdetails : Value) :
  heap σ !! exc = Some (OExc x) →
  isinstance x InvocationError.cls = true →
  exc_slots x = InvocationErrorSlots uri0 args0 kwargs0 details0 →
  heap σ !! err = Some (OExc o) →
  exc_slots o = ErrorResponseSlots (VObj message) →
  exc_dict o !! "kwargs" = None →
  heap σ !! message = Some (OErrorMsg error margs mkwargs mdetails) →
  set_invocation_error exc err σ
  = Some (Raise {| raised_type := AttributeError; raised_args := [VStr "kwargs"] |},
          {| heap := <[exc := OExc (with_slots x (InvocationErrorSlots
                                                    error (VTuple (exc_args o))
                                                    kwargs0 details0))]> (heap σ);
             log := log σ ++ [LogOverwriting exc err] |}) ∧
  slots_ok (InvocationErrorSlots error (VTuple (exc_args o)) kwargs0 details0) = false.
Proof.
  intros Hx Hinst Hxslots Ho Hslots Hdict Hm. split; [|reflexivity].
  unfold set_invocation_error.
  rewrite (bind_ret _ _ _ _ _ (get_exc_some _ _ _ Hx)), Hinst.
  erewrite bind_ret by reflexivity.
  set (σ0 := {| heap := heap σ; log := log σ ++ [LogOverwriting exc err] |}).
  destruct (exc_getattr_ErrorResponse σ0 _ _ _ _ _ _ _ Ho Hslots Hdict Hm)
    as (Huri & Hargs & Hkwargs).
  unfold InvocationError._init.
  rewrite (bind_ret _ _ _ _ _ Huri).
  erewrite bind_ret by (apply unwinding_ret, Hargs).
  apply bind_raise. eapply unwinding_raise; [exact Hkwargs|].
  unfold InvocationError.assigned.
  erewrite bind_ret by (apply get_exc_some; exact Hx).
  by rewrite Hxslots.
Qed.

Lemma overwrite_from_ErrorResponse_is_partial_witness :
  heap wrapped_message_and_error !! 3%positive
    = Some (OExc (error_at wrapped_message_and_error 3)) ∧
  isinstance (error_at wrapped_message_and_error 3) InvocationError.cls = true ∧
  exc_slots (error_at wrapped_message_and_error 3)
    = InvocationErrorSlots "com.example.third" (VList [VInt 2]) VNone VNone ∧
  heap wrapped_message_and_error !! 2%positive
    = Some (OExc (error_at wrapped_message_and_error 2)) ∧
  exc_slots (error_at wrapped_message_and_error 2) = ErrorResponseSlots (VObj 1%positive) ∧
  exc_dict (error_at wrapped_message_and_error 2) !! "kwargs" = None ∧
  heap wrapped_message_and_error !! 1%positive
    = Some (OErrorMsg "com.example.unknown" (VList [VInt 1]) (VDict []) (VDict [])) ∧
  set_invocation_error 3%positive 2%positive wrapped_message_and_error
  = Some (Raise {| raised_type := AttributeError; raised_args := [VStr "kwargs"] |},
          {| heap := <[3%positive :=
                         OExc (with_slots (error_at wrapped_message_and_error 3)
                                          (InvocationErrorSlots
                                             "com.example.unknown"
                                             (VTuple [VObj 1%positive]) VNone VNone))]>
                       (heap wrapped_message_and_error);
             log := [LogOverwriting 3%positive 2%positive] |}) ∧
  slots_ok (InvocationErrorSlots "com.example.unknown" (VTuple [VObj 1%positive])
                                 VNone VNone) = false.
Proof.
  do 7 (split; [reflexivity|]).
  exact (overwrite_from_ErrorResponse_is_partial
           wrapped_message_and_error 3%positive 2%positive 1%positive
           (error_at wrapped_message_and_error 3) (error_at wrapped_message_and_error 2)
           "com.example.third" "com.example.unknown"
           (VList [VInt 2]) VNone VNone (VList [VInt 1]) (VDict []) (VDict [])
           eq_refl eq_refl eq_refl eq_refl eq_refl eq_refl eq_refl).
Defined.
